(** * Horizon / LiveRamp alerts tracker: reconciliation and writeback

    A shallow embedding of the sync engine ([syncFromLiveRamp],
    [updateWorkingAlerts_]), the fingerprinting helpers
    ([computeThreadKey_], [computeRowHash_], [simpleHash_]) and the push
    engine ([pushUpdatesToLiveRamp], [logPush_]) of [Code.js], with the
    properties of the design document stated over it.

    Conventions.
    - A JavaScript string is a [string] whose characters are the code
      units 0..255 (Latin-1); [charCodeAt] is the character's number.
    - A sheet cell read by [getValues] is a [cell]: text, an integer
      number, a checkbox/boolean, or a date carried with the text that
      [String(date)] shows for it and with the serial number that a sheet
      formula joins for it. A blank cell reads as the empty text.
    - The three spreadsheets are explicit state: the LiveRamp grid, the
      [Raw_Alerts] data rows and the [Working_Alerts] data rows. *)

From Stdlib Require Import ZArith Ascii String DecimalString List Permutation.
From Stdlib Require DecimalZ DecimalPos.
From stdpp Require Import gmap strings list fin_maps.

Local Open Scope string_scope.
Local Open Scope list_scope.
Local Open Scope Z_scope.

(** ** JavaScript strings and values *)

Module Js.

Definition charCode (c : ascii) : Z := Z.of_N (N_of_ascii c).

(** [WhiteSpace] and [LineTerminator] code units below 256: the characters
    removed by [String.prototype.trim] and matched by [\s]. *)
Definition isSpace (c : ascii) : bool :=
  let n := charCode c in
  ((9 <=? n) && (n <=? 13)) || (n =? 32) || (n =? 160).

(** [toLowerCase] on one Latin-1 code unit: A-Z, and the accented capitals
    U+00C0..U+00DE except the multiplication sign U+00D7. *)
Definition lowerChar (c : ascii) : ascii :=
  let n := charCode c in
  if ((65 <=? n) && (n <=? 90))
     || ((192 <=? n) && (n <=? 222) && negb (n =? 215))
  then ascii_of_N (Z.to_N (n + 32)) else c.

Fixpoint toLowerCase (s : string) : string :=
  match s with
  | EmptyString => EmptyString
  | String c s' => String (lowerChar c) (toLowerCase s')
  end.

(** [s.replace(/\s+/g, "")]: every white-space character is dropped. *)
Fixpoint stripSpaces (s : string) : string :=
  match s with
  | EmptyString => EmptyString
  | String c s' => if isSpace c then stripSpaces s' else String c (stripSpaces s')
  end.

Fixpoint trimStart (s : string) : string :=
  match s with
  | EmptyString => EmptyString
  | String c s' => if isSpace c then trimStart s' else s
  end.

Fixpoint trimEnd (s : string) : string :=
  match s with
  | EmptyString => EmptyString
  | String c s' =>
      match trimEnd s' with
      | EmptyString => if isSpace c then EmptyString else String c EmptyString
      | t => String c t
      end
  end.

Definition trim (s : string) : string := trimEnd (trimStart s).

(** The one-character string [\n]. *)
Definition newline : string := String "010"%char EmptyString.

Definition isEmpty (s : string) : bool :=
  match s with EmptyString => true | _ => false end.

(** [String(n)] for an integer-valued number. *)
Definition numToString (n : Z) : string := NilZero.string_of_int (Z.to_int n).

(** [arr.join(sep)]. *)
Definition join (sep : string) (l : list string) : string := String.concat sep l.

(** 32-bit integer conversion ([ToInt32]) and the two bit operators that
    [simpleHash_] uses. *)
Definition toInt32 (z : Z) : Z := (z + 2 ^ 31) mod 2 ^ 32 - 2 ^ 31.
Definition shl (a n : Z) : Z := toInt32 (Z.shiftl (toInt32 a) n).
Definition band (a b : Z) : Z := Z.land (toInt32 a) (toInt32 b).

Definition digit36 (d : Z) : ascii :=
  if d <? 10 then ascii_of_N (Z.to_N (48 + d)) else ascii_of_N (Z.to_N (87 + d)).

Fixpoint toString36_digits (fuel : nat) (n : Z) (acc : string) : string :=
  match fuel with
  | O => acc
  | S fuel' =>
      let acc' := String (digit36 (n mod 36)) acc in
      if n / 36 =? 0 then acc' else toString36_digits fuel' (n / 36) acc'
  end.

(** [n.toString(36)] for a non-negative integer. *)
Definition toString36 (n : Z) : string :=
  toString36_digits (S (Z.to_nat (Z.log2 n))) n EmptyString.

(** Values held by sheet cells. *)
Inductive cell : Type :=
| Text (s : string)
| Num (n : Z)
| Bool (b : bool)
| DateV (ms : Z) (shown serial : string).

Definition truthy (c : cell) : bool :=
  match c with
  | Text s => negb (isEmpty s)
  | Num n => negb (n =? 0)
  | Bool b => b
  | DateV _ _ _ => true
  end.

(** [String(c)]. *)
Definition toStr (c : cell) : string :=
  match c with
  | Text s => s
  | Num n => numToString n
  | Bool b => if b then "true" else "false"
  | DateV _ shown _ => shown
  end.

(** [String(c || "")]. *)
Definition strOrEmpty (c : cell) : string :=
  if truthy c then toStr c else "".

End Js.

Export Js.

(** ** Fingerprinting *)

(** One row of the LiveRamp tab, columns A to G ([LR_COL]). *)
Record LrRow : Type := mkLrRow {
  lrDate : cell;
  lrProduct : cell;
  lrWorkflow : cell;
  lrIssue : cell;
  lrRequest : cell;
  lrComment : cell;
  lrResolved : cell
}.

Definition simpleHash_step (hash : Z) (c : ascii) : Z :=
  let hash := shl hash 5 - hash + charCode c in
  band hash hash.

Fixpoint simpleHash_loop (hash : Z) (str : string) : Z :=
  match str with
  | EmptyString => hash
  | String c str' => simpleHash_loop (simpleHash_step hash c) str'
  end.

Definition simpleHash_ (str : string) : string :=
  toString36 (Z.abs (simpleHash_loop 0 str)).

Definition computeThreadKey_ (row : LrRow) : string :=
  let str := strOrEmpty (lrProduct row) +:+ "|" +:+ strOrEmpty (lrWorkflow row) +:+ "|" +:+
             strOrEmpty (lrIssue row) +:+ "|" +:+ strOrEmpty (lrRequest row) in
  simpleHash_ str.

Definition lrCells (row : LrRow) : list cell :=
  [lrDate row; lrProduct row; lrWorkflow row; lrIssue row; lrRequest row;
   lrComment row; lrResolved row].

Definition computeRowHash_ (row : LrRow) : string :=
  let str := join "|" (map strOrEmpty (lrCells row)) in
  simpleHash_ str.


(** ** Data model of the two internal tabs *)

(** [Raw_Alerts] data row: the seven LiveRamp columns and six metadata
    columns. *)
Record RawRow : Type := mkRawRow {
  rawLr : LrRow;
  rawSyncedAt : string;
  rawThreadKey : string;
  rawRowHash : string;
  rawSourceRow : Z;
  rawFirstSeen : string;
  rawLastSeen : string
}.

(** Column K of [Working_Alerts] holds either a value written with
    [setValue] or the composing formula written with [setFormula]. *)
Inductive ComposedCell : Type :=
| Static (c : cell)
| ComposeFormula.

(** [Working_Alerts] data row ([WA_COLS]). Template, FreeText and the
    internal notes are the cells as a person left them, which the sync
    hands on untouched, testing the first two by truthiness; the three
    checkbox columns are booleans, and the columns that the script writes
    are text. Cell colours are left out. *)
Record WaRow : Type := mkWaRow {
  waLr : LrRow;
  waGroup : string;
  waTemplate : cell;
  waFreeText : cell;
  waComposed : ComposedCell;
  waPushReady : bool;
  waLastPushedAt : string;
  waLastPushedText : string;
  waReadyToResolve : bool;
  waLrUpdatedAfterRes : bool;
  waNotes : cell;
  waThreadKey : string;
  waRowHash : string;
  waSourceRow : Z
}.

(** The sheet's own reading of a cell, which the composing formula goes
    by. [c = ""] holds of a blank cell and of an empty text only: a cell
    with [0] or [FALSE] in it is not blank. *)
Definition cellBlank (c : cell) : bool :=
  match c with Text s => isEmpty s | _ => false end.

(** The text that the [&] operator of a formula joins for a cell: a
    number in plain digits (an integer of up to fifteen digits), a boolean
    in capitals, a date as its serial number. *)
Definition joinText (c : cell) : string :=
  match c with
  | Text s => s
  | Num n => numToString n
  | Bool b => if b then "TRUE" else "FALSE"
  | DateV _ _ serial => serial
  end.

(** Value of the sheet formula
    [=IF(AND($I<>"",$J<>""),$I&", "&$J,IF($I<>"",$I,$J))]. *)
Definition composeFormulaValue (template freeText : cell) : cell :=
  if negb (cellBlank template) && negb (cellBlank freeText)
  then Text (joinText template +:+ ", " +:+ joinText freeText)
  else if negb (cellBlank template) then template else freeText.

(** What [getValues] returns for column K of a row. *)
Definition composedCell (row : WaRow) : cell :=
  match waComposed row with
  | Static c => c
  | ComposeFormula => composeFormulaValue (waTemplate row) (waFreeText row)
  end.

(** [String(row[10] || "")]: column K as the push engine reads it. *)
Definition composedValue (row : WaRow) : string := strOrEmpty (composedCell row).

(** The object stored per composite key by [loadExistingWorkingAlerts_]. *)
Record Existing : Type := mkExisting {
  group : string;
  template : cell;
  freeText : cell;
  composed : cell;
  pushReady : bool;
  lastPushedAt : string;
  lastPushedText : string;
  readyToResolve : bool;
  lrUpdatedAfterRes : bool;
  notes : cell;
  rowHash : string
}.

Definition compositeKeyOf (threadKey : string) (sourceRow : Z) : string :=
  threadKey +:+ "|" +:+ numToString sourceRow.

Definition waKey (row : WaRow) : string :=
  compositeKeyOf (waThreadKey row) (waSourceRow row).

Definition rawKey (row : RawRow) : string :=
  compositeKeyOf (rawThreadKey row) (rawSourceRow row).

Definition existingOf (row : WaRow) : Existing :=
  {| group := waGroup row;
     template := waTemplate row;
     freeText := waFreeText row;
     composed := composedCell row;
     pushReady := waPushReady row;
     lastPushedAt := waLastPushedAt row;
     lastPushedText := waLastPushedText row;
     readyToResolve := waReadyToResolve row;
     lrUpdatedAfterRes := waLrUpdatedAfterRes row;
     notes := waNotes row;
     rowHash := waRowHash row |}.

(** [data.forEach(row => { map[key] = {...} })]: a later row with the same
    key overwrites the earlier one. *)
Definition loadExistingWorkingAlerts_ (data : list WaRow) : gmap string Existing :=
  fold_left (fun map row => <[waKey row := existingOf row]> map) data ∅.

Definition loadPreviousRawData_ (data : list RawRow) : gmap string string :=
  fold_left (fun map row => <[rawKey row := rawFirstSeen row]> map) data ∅.

(** ** Sync engine *)

(** The body of [lrData.forEach] in [syncFromLiveRamp]: [None] is the early
    [return] of a skipped row. *)
Definition syncRow (headerRow : Z) (syncTime : string)
    (previousRawData : gmap string string) (idx : nat) (row : LrRow)
  : option RawRow :=
  if negb (truthy (lrDate row)) && negb (truthy (lrProduct row))
     && negb (truthy (lrWorkflow row))
  then None
  else
    let sourceRowNum := headerRow + 1 + Z.of_nat idx in
    let threadKey := computeThreadKey_ row in
    let rowHash := computeRowHash_ row in
    let histKey := compositeKeyOf threadKey sourceRowNum in
    let firstSeen :=
      match previousRawData !! histKey with
      | Some prevFirstSeen => prevFirstSeen
      | None => syncTime
      end in
    Some {| rawLr := row; rawSyncedAt := syncTime; rawThreadKey := threadKey;
            rawRowHash := rowHash; rawSourceRow := sourceRowNum;
            rawFirstSeen := firstSeen; rawLastSeen := syncTime |}.

Fixpoint syncRows (headerRow : Z) (syncTime : string)
    (previousRawData : gmap string string) (idx : nat) (lrData : list LrRow)
  : list RawRow :=
  match lrData with
  | [] => []
  | row :: rest =>
      match syncRow headerRow syncTime previousRawData idx row with
      | Some raw => raw :: syncRows headerRow syncTime previousRawData (S idx) rest
      | None => syncRows headerRow syncTime previousRawData (S idx) rest
      end
  end.

(** The body of [rawRows.forEach] in [updateWorkingAlerts_]: the row pushed
    onto [waRows]. Column K carries [existing.composed] at this point. *)
Definition reconcileRow (existingWA : gmap string Existing) (rawRow : RawRow) : WaRow :=
  let threadKey := rawThreadKey rawRow in
  let rowHash' := rawRowHash rawRow in
  let sourceRow := rawSourceRow rawRow in
  let compositeKey := compositeKeyOf threadKey sourceRow in
  match existingWA !! compositeKey with
  | Some existing =>
      let '(group', flag) :=
        if negb (String.eqb (rowHash existing) rowHash')
        then if readyToResolve existing then ("Resolved", true) else ("Updated", false)
        else (group existing, false) in
      {| waLr := rawLr rawRow;
         waGroup := group';
         waTemplate := template existing;
         waFreeText := freeText existing;
         waComposed := Static (composed existing);
         waPushReady := pushReady existing;
         waLastPushedAt := lastPushedAt existing;
         waLastPushedText := lastPushedText existing;
         waReadyToResolve := readyToResolve existing;
         waLrUpdatedAfterRes := lrUpdatedAfterRes existing || flag;
         waNotes := notes existing;
         waThreadKey := threadKey;
         waRowHash := rowHash';
         waSourceRow := sourceRow |}
  | None =>
      {| waLr := rawLr rawRow;
         waGroup := "New";
         waTemplate := Text "";
         waFreeText := Text "";
         waComposed := Static (Text "");
         waPushReady := false;
         waLastPushedAt := "";
         waLastPushedText := "";
         waReadyToResolve := false;
         waLrUpdatedAfterRes := false;
         waNotes := Text "";
         waThreadKey := threadKey;
         waRowHash := rowHash';
         waSourceRow := sourceRow |}
  end.

(** The [autoComposed] value of the loop that follows [setValues]:
    [template && freeText] and the two tests after it go by truthiness,
    and a lone truthy cell is taken as it is. *)
Definition autoComposed (template freeText : cell) : cell :=
  if truthy template && truthy freeText
  then Text (toStr template +:+ ", " +:+ toStr freeText)
  else if truthy template then template
  else if truthy freeText then freeText
  else Text "".

(** Column K after that loop: [setValue(autoComposed)] when it is truthy,
    [setFormula] otherwise. *)
Definition applyComposed (row : WaRow) : WaRow :=
  let auto := autoComposed (waTemplate row) (waFreeText row) in
  {| waLr := waLr row; waGroup := waGroup row; waTemplate := waTemplate row;
     waFreeText := waFreeText row;
     waComposed := if truthy auto then Static auto else ComposeFormula;
     waPushReady := waPushReady row; waLastPushedAt := waLastPushedAt row;
     waLastPushedText := waLastPushedText row;
     waReadyToResolve := waReadyToResolve row;
     waLrUpdatedAfterRes := waLrUpdatedAfterRes row; waNotes := waNotes row;
     waThreadKey := waThreadKey row; waRowHash := waRowHash row;
     waSourceRow := waSourceRow row |}.

(** [Array.prototype.sort] with the comparator of [updateWorkingAlerts_]
    rearranges [waRows]; which arrangement depends on [localeCompare] and
    on date parsing, so the engine's sort is an interface. *)
Class ArraySort : Type := {
  sortRows : list WaRow → list WaRow;
  sortRows_perm : ∀ l, sortRows l ≡ₚ l
}.

(** The data rows of [Working_Alerts] after [updateWorkingAlerts_]. *)
Definition updateWorkingAlerts_ `{ArraySort} (waData : list WaRow)
    (rawRows : list RawRow) : list WaRow :=
  let existingWA := loadExistingWorkingAlerts_ waData in
  let waRows := reconcileRow existingWA <$> rawRows in
  applyComposed <$> sortRows waRows.

(** ** The spreadsheets as state *)

(** [Config] tab entries read by the two engines. [Header_Row_Number] is
    the result of [parseInt], with [0] standing for an unset or
    non-numeric entry. *)
Record Config : Type := mkConfig {
  LiveRamp_Sheet_URL : string;
  Header_Row_Number : Z;
  Enable_Writeback_To_LR : string;
  Ready_To_Be_Resolved_Label : string
}.

(** What [openByUrl] and [getSheetByName] give for the LiveRamp sheet. The
    grid lists the rows of the tab from row 1 on. *)
Inductive Source : Type :=
| Unreachable
| TabMissing
| Tab (grid : list LrRow).

(** One appended row of [Push_Log]. *)
Record PushLogRow : Type := mkPushLogRow {
  logTimestamp : string;
  logMode : string;
  logConsidered : nat;
  logPushed : nat;
  logSkippedNoChange : nat;
  logSkippedNotReady : nat;
  logErrors : string;
  logNotes : string;
  logRunId : string
}.

(** [lockBusy] says that another run holds the script lock; a tab that
    does not exist is [None]. *)
Record World : Type := mkWorld {
  lockBusy : bool;
  source : Source;
  rawSheet : option (list RawRow);
  waSheet : option (list WaRow);
  pushLog : option (list PushLogRow)
}.

Definition setRawSheet (rows : list RawRow) (w : World) : World :=
  {| lockBusy := lockBusy w; source := source w; rawSheet := Some rows;
     waSheet := waSheet w; pushLog := pushLog w |}.

Definition setWaSheet (rows : list WaRow) (w : World) : World :=
  {| lockBusy := lockBusy w; source := source w; rawSheet := rawSheet w;
     waSheet := Some rows; pushLog := pushLog w |}.

Definition setSource (grid : list LrRow) (w : World) : World :=
  {| lockBusy := lockBusy w; source := Tab grid; rawSheet := rawSheet w;
     waSheet := waSheet w; pushLog := pushLog w |}.

Definition setPushLog (rows : list PushLogRow) (w : World) : World :=
  {| lockBusy := lockBusy w; source := source w; rawSheet := rawSheet w;
     waSheet := waSheet w; pushLog := Some rows |}.

Definition rowBlank (row : LrRow) : bool := forallb cellBlank (lrCells row).

(** [sheet.getLastRow()]: the position of the last row that has content. *)
Fixpoint getLastRow (grid : list LrRow) : nat :=
  match grid with
  | [] => O
  | row :: rest =>
      match getLastRow rest with
      | O => if rowBlank row then O else 1%nat
      | S n => S (S n)
      end
  end.

(** The errors raised with [throw new Error] on the sync path, and the
    out-of-grid range of the header row. *)
Inductive SyncError : Type :=
| AnotherSyncRunning
| UrlNotConfigured
| UrlInvalidFormat
| CannotAccessSheet
| LiveRampTabNotFound
| RangeOutOfGrid
| RawAlertsTabNotFound
| WorkingAlertsTabNotFound.

Inductive SyncOutcome : Type :=
| SyncThrew (e : SyncError)
| SyncNoData
| SyncComplete.

Definition headerRowOf (config : Config) : Z :=
  if Header_Row_Number config =? 0 then 1 else Header_Row_Number config.

(** [getRange(headerRow + 1, 1, lastRow - headerRow, 7).getValues()]. *)
Definition readLrData (headerRow : Z) (grid : list LrRow) : list LrRow :=
  take (getLastRow grid - Z.to_nat headerRow) (drop (Z.to_nat headerRow) grid).

(** [syncFromLiveRamp]: the world it leaves and how it ended. The closing
    [refreshTemplateDropdowns] only sets a validation rule and is left
    out; [Raw_Alerts] is rewritten before [updateWorkingAlerts_] looks for
    the [Working_Alerts] tab. *)
Definition syncFromLiveRamp `{ArraySort} (config : Config) (syncTime : string)
    (w : World) : World * SyncOutcome :=
  if lockBusy w then (w, SyncThrew AnotherSyncRunning) else
  let lrUrl := trim (LiveRamp_Sheet_URL config) in
  if isEmpty lrUrl then (w, SyncThrew UrlNotConfigured) else
  if negb (String.prefix "https://docs.google.com/spreadsheets/" lrUrl)
  then (w, SyncThrew UrlInvalidFormat) else
  match source w with
  | Unreachable => (w, SyncThrew CannotAccessSheet)
  | TabMissing => (w, SyncThrew LiveRampTabNotFound)
  | Tab grid =>
      let headerRow := headerRowOf config in
      if (headerRow <? 1) || (Z.of_nat (length grid) <? headerRow)
      then (w, SyncThrew RangeOutOfGrid) else
      if Z.of_nat (getLastRow grid) <=? headerRow then (w, SyncNoData) else
      let lrData := readLrData headerRow grid in
      match rawSheet w with
      | None => (w, SyncThrew RawAlertsTabNotFound)
      | Some rawData =>
          let previousRawData := loadPreviousRawData_ rawData in
          let rawRows := syncRows headerRow syncTime previousRawData 0 lrData in
          let w1 := setRawSheet rawRows w in
          match waSheet w1 with
          | None => (w1, SyncThrew WorkingAlertsTabNotFound)
          | Some waData =>
              (setWaSheet (updateWorkingAlerts_ waData rawRows) w1, SyncComplete)
          end
      end
  end.

(** A stable insertion sort by the comparator of [updateWorkingAlerts_],
    used to run the engine on concrete tables. [localeCompare] is taken as
    code-unit order; a text date is taken as unparseable, which makes the
    comparator's difference [NaN], read as [0] by [sort]. *)
Definition dateMs (c : cell) : option Z :=
  match c with
  | DateV ms _ _ => Some ms
  | Num n => Some n
  | Bool b => Some (if b then 1 else 0)
  | Text _ => None
  end.

Definition cellStrictEq (a b : cell) : bool :=
  match a, b with
  | Text s, Text t => String.eqb s t
  | Num n, Num m => n =? m
  | Bool x, Bool y => Bool.eqb x y
  | _, _ => false
  end.

Definition compareRows (a b : WaRow) : Z :=
  if negb (String.eqb (waThreadKey a) (waThreadKey b)) then
    match String.compare (waThreadKey a) (waThreadKey b) with
    | Lt => -1 | Eq => 0 | Gt => 1
    end
  else if negb (cellStrictEq (lrDate (waLr a)) (lrDate (waLr b))) then
    match dateMs (lrDate (waLr a)), dateMs (lrDate (waLr b)) with
    | Some x, Some y => x - y
    | _, _ => 0
    end
  else waSourceRow a - waSourceRow b.

Fixpoint insertRow (x : WaRow) (l : list WaRow) : list WaRow :=
  match l with
  | [] => [x]
  | y :: l' => if compareRows y x <? 0 then y :: insertRow x l' else x :: y :: l'
  end.

Definition insertionSort (l : list WaRow) : list WaRow := foldr insertRow [] l.

#[export] Instance insertionArraySort : ArraySort.
Proof.
  refine {| sortRows := insertionSort |}.
  assert (Hins : ∀ x l, insertRow x l ≡ₚ x :: l).
  { intros x l. induction l as [|y l IH]; simpl; [done|].
    destruct (compareRows y x <? 0); [|done].
    rewrite IH. apply Permutation_swap. }
  intros l. induction l as [|x l IH]; simpl; [done|].
  rewrite Hins. by rewrite IH.
Defined.

(** ** Push engine *)

Record Counters : Type := mkCounters {
  rowsConsidered : nat;
  rowsPushed : nat;
  rowsSkippedNoChange : nat;
  rowsSkippedNotReady : nat;
  errors : list string
}.

Definition noCounters : Counters :=
  {| rowsConsidered := 0; rowsPushed := 0; rowsSkippedNoChange := 0;
     rowsSkippedNotReady := 0; errors := [] |}.

(** What the loop of [pushUpdatesToLiveRamp] carries from row to row: the
    LiveRamp grid, the [Working_Alerts] data rows and the counters. *)
Record PushState : Type := mkPushState {
  psGrid : list LrRow;
  psWa : list WaRow;
  psCount : Counters
}.

Definition readyLabel (config : Config) : string :=
  if isEmpty (Ready_To_Be_Resolved_Label config)
  then "READY TO BE RESOLVED" else Ready_To_Be_Resolved_Label config.

(** [composed.toLowerCase().replace(/\s+/g, "")]. *)
Definition normalize (s : string) : string := stripSpaces (toLowerCase s).

(** [lrSheet.getRange(sourceRowNum, 6)] raises outside the grid. *)
Definition lrCellIndex (grid : list LrRow) (sourceRowNum : Z) : option nat :=
  if (1 <=? sourceRowNum) && (sourceRowNum <=? Z.of_nat (length grid))
  then Some (Z.to_nat (sourceRowNum - 1)) else None.

Definition setComment (text : string) (row : LrRow) : LrRow :=
  {| lrDate := lrDate row; lrProduct := lrProduct row; lrWorkflow := lrWorkflow row;
     lrIssue := lrIssue row; lrRequest := lrRequest row; lrComment := Text text;
     lrResolved := lrResolved row |}.

(** The text written back to column F. *)
Definition appendedText (existingCell : cell) (pushTime composed : string) : string :=
  let existingText := trim (strOrEmpty existingCell) in
  let newText := existingText in
  let newText := if negb (isEmpty existingText)
                 then newText +:+ newline +:+ newline else newText in
  let newText := newText +:+ pushTime +:+ newline in
  newText +:+ "Horizon: " +:+ composed.

(** The per-row updates of [Working_Alerts] after a write to LiveRamp. *)
Definition stampPushed (pushTime composed : string) (resolve : bool) (row : WaRow) : WaRow :=
  {| waLr := waLr row;
     waGroup := if resolve then "Resolved" else waGroup row;
     waTemplate := waTemplate row; waFreeText := waFreeText row;
     waComposed := waComposed row; waPushReady := waPushReady row;
     waLastPushedAt := pushTime; waLastPushedText := composed;
     waReadyToResolve := waReadyToResolve row;
     waLrUpdatedAfterRes := waLrUpdatedAfterRes row; waNotes := waNotes row;
     waThreadKey := waThreadKey row; waRowHash := waRowHash row;
     waSourceRow := waSourceRow row |}.

Definition bump (considered pushed noChange notReady : nat) (c : Counters) : Counters :=
  {| rowsConsidered := rowsConsidered c + considered;
     rowsPushed := rowsPushed c + pushed;
     rowsSkippedNoChange := rowsSkippedNoChange c + noChange;
     rowsSkippedNotReady := rowsSkippedNotReady c + notReady;
     errors := errors c |}.

Definition pushError (msg : string) (c : Counters) : Counters :=
  {| rowsConsidered := rowsConsidered c; rowsPushed := rowsPushed c;
     rowsSkippedNoChange := rowsSkippedNoChange c;
     rowsSkippedNotReady := rowsSkippedNotReady c;
     errors := errors c ++ [msg] |}.

(** Text of the exception that [getRange] raises; it belongs to the
    platform. *)
Definition rangeMessage : string := "Range not found".

(** The body of [waData.forEach] in [pushUpdatesToLiveRamp]. *)
Definition pushRow (config : Config) (pushTime : string) (idx : nat)
    (row : WaRow) (st : PushState) : PushState :=
  let composed := trim (composedValue row) in
  let pushReady := waPushReady row in
  let lastPushedText := trim (waLastPushedText row) in
  let readyToResolve := waReadyToResolve row in
  let sourceRowNum := waSourceRow row in
  if isEmpty composed then st else
  let count := bump 1 0 0 0 (psCount st) in
  let template := trim (strOrEmpty (waTemplate row)) in
  let isReadyToResolveTemplate := String.eqb template (readyLabel config) in
  if negb pushReady && negb isReadyToResolveTemplate
  then {| psGrid := psGrid st; psWa := psWa st; psCount := bump 0 0 0 1 count |}
  else
  let normalizedComposed := normalize composed in
  let normalizedLast := normalize lastPushedText in
  if String.eqb normalizedComposed normalizedLast
  then {| psGrid := psGrid st; psWa := psWa st; psCount := bump 0 0 1 0 count |}
  else
  match lrCellIndex (psGrid st) sourceRowNum with
  | None =>
      {| psGrid := psGrid st; psWa := psWa st;
         psCount := pushError ("Row " +:+ numToString sourceRowNum +:+ ": " +:+ rangeMessage) count |}
  | Some i =>
      let existingCell :=
        match psGrid st !! i with Some r => lrComment r | None => Text "" end in
      let newText := appendedText existingCell pushTime composed in
      {| psGrid := alter (setComment newText) i (psGrid st);
         psWa := alter (stampPushed pushTime composed
                          (readyToResolve || isReadyToResolveTemplate)) idx (psWa st);
         psCount := bump 0 1 0 0 count |}
  end.

Fixpoint pushRows (config : Config) (pushTime : string) (idx : nat)
    (waData : list WaRow) (st : PushState) : PushState :=
  match waData with
  | [] => st
  | row :: rest => pushRows config pushTime (S idx) rest (pushRow config pushTime idx row st)
  end.

(** [logPush_]: nothing is logged when the [Push_Log] tab is missing. *)
Definition logPush_ (timestamp runId : string) (c : Counters) (w : World) : World :=
  match pushLog w with
  | None => w
  | Some rows =>
      let errorStr := if (0 <? length (errors c))%nat then join "; " (errors c) else "" in
      let notes := "Considered: " +:+ numToString (Z.of_nat (rowsConsidered c))
                   +:+ ", Pushed: " +:+ numToString (Z.of_nat (rowsPushed c)) in
      setPushLog (rows ++ [ {| logTimestamp := timestamp; logMode := "Manual/Scheduled";
                               logConsidered := rowsConsidered c;
                               logPushed := rowsPushed c;
                               logSkippedNoChange := rowsSkippedNoChange c;
                               logSkippedNotReady := rowsSkippedNotReady c;
                               logErrors := errorStr; logNotes := notes;
                               logRunId := runId |} ]) w
  end.

Inductive PushError : Type :=
| AnotherPushRunning
| CannotOpenSheet
| PushTabNotFound.

Inductive PushOutcome : Type :=
| PushThrew (e : PushError)
| WritebackDisabled
| NoDataToPush
| PushComplete (c : Counters).

(** [pushUpdatesToLiveRamp]. [stamp] is the formatted time of the run
    ([MM/dd/yyyy h:mm a]), [logStamp] and [runId] the two values that
    [logPush_] takes from the platform. *)
Definition pushUpdatesToLiveRamp (config : Config) (stamp logStamp runId : string)
    (w : World) : World * PushOutcome :=
  if lockBusy w then (w, PushThrew AnotherPushRunning) else
  if negb (String.eqb (Enable_Writeback_To_LR config) "TRUE")
  then (w, WritebackDisabled) else
  match waSheet w with
  | None => (w, NoDataToPush)
  | Some [] => (w, NoDataToPush)
  | Some waData =>
      match source w with
      | Unreachable => (w, PushThrew CannotOpenSheet)
      | TabMissing => (w, PushThrew PushTabNotFound)
      | Tab grid =>
          let pushTime := stamp +:+ " ET" in
          let st := pushRows config pushTime 0 waData
                      {| psGrid := grid; psWa := waData; psCount := noCounters |} in
          let w1 := setWaSheet (psWa st) (setSource (psGrid st) w) in
          (logPush_ logStamp runId (psCount st) w1, PushComplete (psCount st))
      end
  end.

(** ** A human edit and the end-to-end scenario *)

(** A person fills column I and ticks [HMI_Push_Ready] on one data row. *)
Definition humanResponds (template : string) (row : WaRow) : WaRow :=
  {| waLr := waLr row; waGroup := waGroup row; waTemplate := Text template;
     waFreeText := waFreeText row; waComposed := waComposed row;
     waPushReady := true; waLastPushedAt := waLastPushedAt row;
     waLastPushedText := waLastPushedText row;
     waReadyToResolve := waReadyToResolve row;
     waLrUpdatedAfterRes := waLrUpdatedAfterRes row; waNotes := waNotes row;
     waThreadKey := waThreadKey row; waRowHash := waRowHash row;
     waSourceRow := waSourceRow row |}.

Definition editWaRow (idx : nat) (f : WaRow → WaRow) (w : World) : World :=
  match waSheet w with
  | Some rows => setWaSheet (alter f idx rows) w
  | None => w
  end.

Module Scenario.

Definition headerCells : LrRow :=
  mkLrRow (Text "Date") (Text "Product") (Text "Workflow/Audience Name")
          (Text "Issue & LR Action") (Text "Request to Horizon Team")
          (Text "Horizon Comment") (Text "Resolved").

Definition alert : LrRow :=
  mkLrRow (DateV 1769922000000 "Sun Feb 01 2026 00:00:00 GMT-0500 (Eastern Standard Time)"
             "46054")
          (Text "Pixel") (Text "W1") (Text "Cannot decommission")
          (Text "Please advise") (Text "") (Bool false).

Definition config : Config :=
  {| LiveRamp_Sheet_URL := "https://docs.google.com/spreadsheets/d/abc/edit";
     Header_Row_Number := 1;
     Enable_Writeback_To_LR := "TRUE";
     Ready_To_Be_Resolved_Label := "" |}.

Definition world0 : World :=
  {| lockBusy := false; source := Tab [headerCells; alert];
     rawSheet := Some []; waSheet := Some []; pushLog := Some [] |}.

Definition afterSync1 : World := fst (syncFromLiveRamp config "02/02/2026 06:00:00" world0).
Definition afterEdit : World := editWaRow 0 (humanResponds "Investigating internally") afterSync1.
Definition afterPush : World :=
  fst (pushUpdatesToLiveRamp config "02/02/2026 10:15 AM" "02/02/2026 10:15:00" "run00001" afterEdit).
Definition afterSync2 : World := fst (syncFromLiveRamp config "02/03/2026 06:00:00" afterPush).

(** The second sync when the LiveRamp rows are put back exactly as the
    first sync read them. *)
Definition afterSync2_sameRows : World :=
  fst (syncFromLiveRamp config "02/03/2026 06:00:00" (setSource [headerCells; alert] afterPush)).

Definition groups (w : World) : option (list string) :=
  match waSheet w with
  | Some rows => Some (waGroup <$> rows)
  | None => None
  end.

End Scenario.

(** ** Disposition of a row by the push loop *)

Inductive Verdict : Type :=
| NotConsidered
| SkippedNotReady
| SkippedNoChange
| Pushed
| Failed.

#[export] Instance Verdict_eq_dec : EqDecision Verdict.
Proof. solve_decision. Defined.

(** The push-ready test of the loop: the checkbox, or the resolution
    label in column I. *)
Definition eligible (config : Config) (row : WaRow) : bool :=
  waPushReady row
  || String.eqb (trim (strOrEmpty (waTemplate row))) (readyLabel config).

(** The branch that [pushRow] takes for a row when the grid has [gridRows]
    rows. *)
Definition verdict (config : Config) (gridRows : nat) (row : WaRow) : Verdict :=
  if isEmpty (trim (composedValue row)) then NotConsidered
  else if negb (eligible config row) then SkippedNotReady
  else if String.eqb (normalize (trim (composedValue row)))
                     (normalize (trim (waLastPushedText row))) then SkippedNoChange
  else if (1 <=? waSourceRow row) && (waSourceRow row <=? Z.of_nat gridRows)
  then Pushed else Failed.

Definition countVerdict (config : Config) (gridRows : nat) (v : Verdict)
    (rows : list WaRow) : nat :=
  length (filter (λ row, verdict config gridRows row = v) rows).

Definition indicator (config : Config) (n : nat) (row : WaRow) (v : Verdict) : nat :=
  if decide (verdict config n row = v) then 1%nat else 0%nat.

(** The [Working_Alerts] row that the loop leaves for a row. *)
Definition rowAfterPush (config : Config) (pushTime : string) (gridRows : nat)
    (row : WaRow) : WaRow :=
  match verdict config gridRows row with
  | Pushed =>
      stampPushed pushTime (trim (composedValue row))
        (waReadyToResolve row
         || String.eqb (trim (strOrEmpty (waTemplate row))) (readyLabel config)) row
  | _ => row
  end.

(** A considered, eligible row whose message equals the last pushed text
    once both are lower-cased and stripped of white space. *)
Definition duplicateRow (config : Config) (row : WaRow) : bool :=
  negb (isEmpty (trim (composedValue row)))
  && eligible config row
  && String.eqb (normalize (composedValue row)) (normalize (waLastPushedText row)).

(** The design document's normal form of a message, "lower-casing and
    stripping all whitespace", written from those words and not from the
    code: one pass over the characters that drops the white-space
    characters (tab, line feed, vertical tab, form feed, carriage return,
    space, no-break space) and turns each capital letter, plain or
    accented, into its small letter. *)
Module Design.

Definition whiteSpace : list ascii :=
  ["009"; "010"; "011"; "012"; "013"; " "; "160"]%char.

Definition isWhite (c : ascii) : bool := bool_decide (c ∈ whiteSpace).

Definition isCapital (c : ascii) : bool :=
  let n := nat_of_ascii c in
  ((65 <=? n) && (n <=? 90)
   || (192 <=? n) && (n <=? 222) && negb (n =? 215))%nat.

Definition small (c : ascii) : ascii :=
  if isCapital c then ascii_of_nat (nat_of_ascii c + 32) else c.

Fixpoint normalForm (s : string) : string :=
  match s with
  | EmptyString => EmptyString
  | String c s' =>
      if isWhite c then normalForm s' else String (small c) (normalForm s')
  end.

End Design.

(** The row of the prior table that a composite key stands for when
    several rows carry it: the last one. *)
Definition lastWithKey {A} (key : A → string) (k : string) (data : list A) : option A :=
  last (filter (λ row, key row = k) data).

(** The test of the early [return] in the loop of [syncFromLiveRamp]. *)
Definition skipped (row : LrRow) : bool :=
  negb (truthy (lrDate row)) && negb (truthy (lrProduct row))
  && negb (truthy (lrWorkflow row)).

(** ** Concrete tables used to run the engines *)

Module Tables.
Import Scenario.

(** A row with a date and nothing else. *)
Definition dateOnly : LrRow :=
  mkLrRow (Text "02/01/2026") (Text "") (Text "") (Text "") (Text "") (Text "") (Text "").

(** A row with an issue and a request, without date, product, workflow. *)
Definition issueOnly : LrRow :=
  mkLrRow (Text "") (Text "") (Text "") (Text "Cannot decommission")
          (Text "Please advise") (Text "") (Text "").

Definition worldOf (grid : list LrRow) (waData : list WaRow) : World :=
  {| lockBusy := false; source := Tab grid; rawSheet := Some [];
     waSheet := Some waData; pushLog := Some [] |}.

(** The [Working_Alerts] row of the scenario after the push, and the same
    row with another template, standing under the same composite key. *)
Definition pushedRow : WaRow :=
  Eval vm_compute in
    match waSheet afterPush with Some (row :: _) => row | _ => reconcileRow ∅ (mkRawRow alert "" "" "" 0 "" "") end.

Definition resyncedRow : WaRow :=
  Eval vm_compute in
    match waSheet afterSync2 with Some (row :: _) => row | _ => pushedRow end.

Definition twinRow : WaRow := Eval vm_compute in humanResponds "Waiting on client" pushedRow.

Definition syncTime2 : string := "02/03/2026 06:00:00".

(** [pushedRow] with [HMI_Ready_To_Be_Resolved] ticked by hand. *)
Definition resolvedRow : WaRow :=
  Eval vm_compute in
    mkWaRow (waLr pushedRow) (waGroup pushedRow) (waTemplate pushedRow)
      (waFreeText pushedRow) (waComposed pushedRow) (waPushReady pushedRow)
      (waLastPushedAt pushedRow) (waLastPushedText pushedRow) true
      (waLrUpdatedAfterRes pushedRow) (waNotes pushedRow) (waThreadKey pushedRow)
      (waRowHash pushedRow) (waSourceRow pushedRow).

Definition pushedGrid : list LrRow :=
  Eval vm_compute in match source afterPush with Tab grid => grid | _ => [] end.

(** The row written by a sync that finds [resolvedRow] in the prior table
    and the pushed comment in the grid. *)
Definition reResolvedRow : WaRow :=
  Eval vm_compute in
    match waSheet (fst (syncFromLiveRamp config syncTime2 (worldOf pushedGrid [resolvedRow]))) with
    | Some (row :: _) => row
    | _ => resolvedRow
    end.

(** The scenario's alert with a comment that ends in a space, and a
    working row for it whose message is [B]. *)
Definition spacedAlert : LrRow :=
  mkLrRow (lrDate alert) (Text "Pixel") (Text "W1") (Text "Cannot decommission")
          (Text "Please advise") (Text "A ") (Bool false).

Definition rowB : WaRow :=
  mkWaRow spacedAlert "New" (Text "B") (Text "") ComposeFormula true "" "" false false (Text "")
          "f3sra7" "3x8drq" 2.


Definition comments (w : World) : list cell :=
  match source w with Tab grid => lrComment <$> grid | _ => [] end.

Definition lastPushedTexts (w : World) : option (list string) :=
  match waSheet w with Some rows => Some (waLastPushedText <$> rows) | None => None end.

Definition rawPositions (w : World) : option (list Z) :=
  match rawSheet w with Some rows => Some (rawSourceRow <$> rows) | None => None end.

Definition waPositions (w : World) : option (list Z) :=
  match waSheet w with Some rows => Some (waSourceRow <$> rows) | None => None end.

Definition waTemplates (w : World) : option (list cell) :=
  match waSheet w with Some rows => Some (waTemplate <$> rows) | None => None end.

End Tables.

(** ** Auxiliary notions for the properties of the engines *)

(** Whether a character occurs in a string. *)
Fixpoint hasChar (c : ascii) (s : string) : bool :=
  match s with
  | EmptyString => false
  | String d s' => Ascii.eqb d c || hasChar c s'
  end.

(** The two fingerprints and the position that a fetched row gets. *)
Definition rawCore (raw : RawRow) : LrRow * string * string * Z :=
  (rawLr raw, rawThreadKey raw, rawRowHash raw, rawSourceRow raw).

(** The text that the push loop reads from a comment cell. *)
Definition commentText (lr : LrRow) : string := trim (strOrEmpty (lrComment lr)).

(** A LiveRamp row after a push cycle, against the same row before: the
    six columns that are not the comment are the same, and the text read
    from the comment cell starts with the text read before. *)
Definition rowGrew (old new : LrRow) : Prop :=
  lrDate new = lrDate old ∧ lrProduct new = lrProduct old
  ∧ lrWorkflow new = lrWorkflow old ∧ lrIssue new = lrIssue old
  ∧ lrRequest new = lrRequest old ∧ lrResolved new = lrResolved old
  ∧ ∃ suffix, commentText new = commentText old +:+ suffix.

Definition gridGrew (old new : list LrRow) : Prop :=
  length new = length old
  ∧ ∀ i lr, old !! i = Some lr → ∃ lr', new !! i = Some lr' ∧ rowGrew lr lr'.

(** A considered, eligible row whose message differs from the last pushed
    text: the loop tries to write it. *)
Definition attempted (config : Config) (row : WaRow) : bool :=
  negb (isEmpty (trim (composedValue row)))
  && eligible config row
  && negb (String.eqb (normalize (composedValue row)) (normalize (waLastPushedText row))).

Definition inGrid (gridRows : nat) (row : WaRow) : bool :=
  (1 <=? waSourceRow row) && (waSourceRow row <=? Z.of_nat gridRows).

(** The entry that the [catch] of the push loop adds for a row. *)
Definition rangeError (row : WaRow) : string :=
  "Row " +:+ numToString (waSourceRow row) +:+ ": " +:+ rangeMessage.

(** ** Daily email *)

(** [s.replace(/c/g, by)] for a pattern of one character. *)
Fixpoint replaceAll (c : ascii) (by_ : string) (s : string) : string :=
  match s with
  | EmptyString => EmptyString
  | String d s' =>
      if Ascii.eqb d c then by_ +:+ replaceAll c by_ s'
      else String d (replaceAll c by_ s')
  end.

(** The chain of six replacements of [escapeHtml_]. *)
Definition escapeText (text : string) : string :=
  replaceAll "010" "<br>"
    (replaceAll "'" "&#039;"
       (replaceAll "034" "&quot;"
          (replaceAll ">" "&gt;"
             (replaceAll "<" "&lt;"
                (replaceAll "&" "&amp;" text))))).

Definition escapeHtml_ (text : cell) : string :=
  if negb (truthy text) then "" else escapeText (toStr text).

(** The Horizon Update cell of a row in [buildEmailSection_]. *)
Definition horizonUpdate (row : WaRow) : string :=
  let template := escapeHtml_ (waTemplate row) in
  let freeText := escapeHtml_ (waFreeText row) in
  let horizonUpdate :=
    if negb (isEmpty template) && negb (isEmpty freeText)
    then template +:+ ", " +:+ freeText
    else if negb (isEmpty template) then template
    else if negb (isEmpty freeText) then freeText
    else "" in
  escapeHtml_ (Text horizonUpdate).

(** The three arrays filled by the categorising loop of
    [buildEmailHtml_]. *)
Record Sections : Type := mkSections {
  newRows : list WaRow;
  updatedRows : list WaRow;
  ongoingRows : list WaRow
}.

Definition categorizeRow (acc : Sections) (row : WaRow) : Sections :=
  let group := waGroup row in
  let readyToResolve := waReadyToResolve row in
  if String.eqb group "Resolved" || readyToResolve then acc
  else if String.eqb group "New"
  then {| newRows := newRows acc ++ [row]; updatedRows := updatedRows acc;
          ongoingRows := ongoingRows acc |}
  else if String.eqb group "Updated"
  then {| newRows := newRows acc; updatedRows := updatedRows acc ++ [row];
          ongoingRows := ongoingRows acc |}
  else if String.eqb group "Ongoing"
  then {| newRows := newRows acc; updatedRows := updatedRows acc;
          ongoingRows := ongoingRows acc ++ [row] |}
  else acc.

Definition categorizeRows (data : list WaRow) : Sections :=
  fold_left categorizeRow data
    {| newRows := []; updatedRows := []; ongoingRows := [] |}.

Record EmailCounts : Type := mkEmailCounts {
  newCount : nat;
  updatedCount : nat;
  ongoingCount : nat
}.

Definition countRow (acc : EmailCounts) (row : WaRow) : EmailCounts :=
  let group := waGroup row in
  if String.eqb group "New"
  then {| newCount := S (newCount acc); updatedCount := updatedCount acc;
          ongoingCount := ongoingCount acc |}
  else if String.eqb group "Updated"
  then {| newCount := newCount acc; updatedCount := S (updatedCount acc);
          ongoingCount := ongoingCount acc |}
  else if String.eqb group "Ongoing"
  then {| newCount := newCount acc; updatedCount := updatedCount acc;
          ongoingCount := S (ongoingCount acc) |}
  else acc.

(** [getEmailCounts_]: zeros when the tab is missing or has no data row. *)
Definition getEmailCounts_ (w : World) : EmailCounts :=
  match waSheet w with
  | None | Some [] => {| newCount := 0; updatedCount := 0; ongoingCount := 0 |}
  | Some data =>
      fold_left countRow data {| newCount := 0; updatedCount := 0; ongoingCount := 0 |}
  end.

(** A data row of the [Recipients] tab: name, email, active. *)
Record RecipientRow : Type := mkRecipientRow {
  recName : cell;
  recEmail : cell;
  recActive : cell
}.

Definition isTrue (c : cell) : bool :=
  match c with Bool true => true | _ => false end.

Definition recipientStep (emails : list string) (row : RecipientRow) : list string :=
  let email := trim (strOrEmpty (recEmail row)) in
  let active := isTrue (recActive row) in
  if negb (isEmpty email) && active then emails ++ [email] else emails.

(** [getActiveRecipients_]; [None] is a missing [Recipients] tab. *)
Definition getActiveRecipients_ (recipientsSheet : option (list RecipientRow)) : list string :=
  match recipientsSheet with
  | None | Some [] => []
  | Some data => fold_left recipientStep data []
  end.

(** ** Config tab *)

Inductive ConfigError : Type :=
| ConfigTabNotFound
| ConfigRangeEmpty.

(** [if (row[0]) config[String(row[0])] = row[1]] on a plain object, whose
    own entries the map holds. An assignment to the name [__proto__] goes
    to the accessor that the object inherits and makes no entry. *)
Definition configStep (config : gmap string cell) (row : cell * cell) : gmap string cell :=
  if truthy (fst row)
  then if String.eqb (toStr (fst row)) "__proto__" then config
       else <[toStr (fst row) := snd row]> config
  else config.

(** [getConfig_] over the data rows of the [Config] tab (row 3 on). With no
    data row the range asked of [getRange] has no rows, which raises. *)
Definition getConfig_ (sheet : option (list (cell * cell)))
  : ConfigError + gmap string cell :=
  match sheet with
  | None => inl ConfigTabNotFound
  | Some [] => inl ConfigRangeEmpty
  | Some data => inr (fold_left configStep data ∅)
  end.

(** ** One-pass views used to state properties *)

(** Replacing every character of a string by a string. *)
Fixpoint substChars (σ : ascii → string) (s : string) : string :=
  match s with
  | EmptyString => EmptyString
  | String d s' => σ d +:+ substChars σ s'
  end.

(** The entity that stands for a character in escaped text. *)
Definition escapeChar (d : ascii) : string :=
  if Ascii.eqb d "&" then "&amp;"
  else if Ascii.eqb d "<" then "&lt;"
  else if Ascii.eqb d ">" then "&gt;"
  else if Ascii.eqb d "034" then "&quot;"
  else if Ascii.eqb d "'" then "&#039;"
  else if Ascii.eqb d "010" then "<br>"
  else String d EmptyString.

(** Whether a string has a character that [escapeHtml_] rewrites. *)
Fixpoint hasSpecial (s : string) : bool :=
  match s with
  | EmptyString => false
  | String d s' =>
      negb (String.eqb (escapeChar d) (String d EmptyString)) || hasSpecial s'
  end.

(** The hash without the wrap to 32 bits: [31 * hash + char] at each step. *)
Fixpoint polyHash (hash : Z) (str : string) : Z :=
  match str with
  | EmptyString => hash
  | String c str' => polyHash (31 * hash + charCode c) str'
  end.

(** The number that a string of base-36 digits stands for. *)
Definition digitValue (c : ascii) : Z :=
  let n := charCode c in
  if (48 <=? n) && (n <=? 57) then n - 48 else n - 87.

Fixpoint fromString36 (acc : Z) (s : string) : Z :=
  match s with
  | EmptyString => acc
  | String c s' => fromString36 (36 * acc + digitValue c) s'
  end.

Definition isDigit36 (c : ascii) : bool :=
  let n := charCode c in
  ((48 <=? n) && (n <=? 57)) || ((97 <=? n) && (n <=? 122)).

Fixpoint forallChars (p : ascii → bool) (s : string) : bool :=
  match s with
  | EmptyString => true
  | String c s' => p c && forallChars p s'
  end.

(** The composition of two texts: joined with a comma when neither is
    empty, else the one that is not empty. *)
Definition composeTexts (template freeText : string) : string :=
  if negb (isEmpty template) && negb (isEmpty freeText)
  then template +:+ ", " +:+ freeText
  else if negb (isEmpty template) then template else freeText.

(** A person types into columns I and J of a working row. *)
Definition editTemplate (template freeText : cell) (row : WaRow) : WaRow :=
  {| waLr := waLr row; waGroup := waGroup row; waTemplate := template;
     waFreeText := freeText; waComposed := waComposed row;
     waPushReady := waPushReady row; waLastPushedAt := waLastPushedAt row;
     waLastPushedText := waLastPushedText row;
     waReadyToResolve := waReadyToResolve row;
     waLrUpdatedAfterRes := waLrUpdatedAfterRes row; waNotes := waNotes row;
     waThreadKey := waThreadKey row; waRowHash := waRowHash row;
     waSourceRow := waSourceRow row |}.

(** ** More concrete worlds *)

Module Samples.
Import Scenario Tables.

Definition firstRow : WaRow :=
  Eval vm_compute in
    match waSheet afterSync1 with Some (row :: _) => row | _ => pushedRow end.

Definition emptyRaw : RawRow := mkRawRow alert "" "" "" 0 "" "".

Definition rawRow1 : RawRow :=
  Eval vm_compute in
    match rawSheet afterSync1 with Some (row :: _) => row | _ => emptyRaw end.

Definition rawRow2 : RawRow :=
  Eval vm_compute in
    match rawSheet afterSync2 with Some (row :: _) => row | _ => emptyRaw end.

Definition lockedWorld : World :=
  {| lockBusy := true; source := Tab [headerCells; alert];
     rawSheet := Some []; waSheet := Some []; pushLog := Some [] |}.

Definition noWorkingTab : World :=
  {| lockBusy := false; source := Tab [headerCells; alert];
     rawSheet := Some []; waSheet := None; pushLog := Some [] |}.

Definition configOff : Config :=
  {| LiveRamp_Sheet_URL := LiveRamp_Sheet_URL config;
     Header_Row_Number := 1;
     Enable_Writeback_To_LR := "FALSE";
     Ready_To_Be_Resolved_Label := "" |}.

Definition twoRowWorld : World := worldOf [headerCells; alert; dateOnly] [].

Definition pushWorld : World := worldOf pushedGrid [twinRow; pushedRow].

Definition afterPushWorld : World :=
  fst (pushUpdatesToLiveRamp config "T" "L" "R" pushWorld).

Definition pushCounters : Counters :=
  {| rowsConsidered := 2; rowsPushed := 1; rowsSkippedNoChange := 1;
     rowsSkippedNotReady := 0; errors := [] |}.



(** [pushedRow] with the message typed again in capitals and with spaces
    and a tab added. *)
Definition shoutedRow : WaRow :=
  editTemplate (Text ("  INVESTIGATING" +:+ String "009" " Internally ")) (Text "")
    (mkWaRow (waLr pushedRow) (waGroup pushedRow) (waTemplate pushedRow)
       (waFreeText pushedRow) ComposeFormula (waPushReady pushedRow)
       (waLastPushedAt pushedRow) (waLastPushedText pushedRow)
       (waReadyToResolve pushedRow) (waLrUpdatedAfterRes pushedRow)
       (waNotes pushedRow) (waThreadKey pushedRow) (waRowHash pushedRow)
       (waSourceRow pushedRow)).

(** A [Config] tab with a row keyed [__proto__]. *)
Definition protoConfig : list (cell * cell) :=
  [(Text "Timezone", Text "America/New_York"); (Text "__proto__", Text "x");
   (Text "", Text "skipped"); (Text "Timezone", Text "UTC")].

End Samples.

(** * Properties *)

(** ** Strings *)

Lemma isSpace_lowerChar c : isSpace (lowerChar c) = isSpace c.
Proof. destruct c as [[] [] [] [] [] [] [] []]; reflexivity. Qed.

Lemma isEmpty_true s : isEmpty s = true ↔ s = "".
Proof. destruct s; simpl; split; congruence. Qed.

Lemma isEmpty_false s : isEmpty s = false ↔ s ≠ "".
Proof. destruct s; simpl; split; congruence. Qed.

Lemma normalize_trimStart s : normalize (trimStart s) = normalize s.
Proof.
  unfold normalize. induction s as [|c s IH]; simpl; [done|].
  destruct (isSpace c) eqn:Hc.
  - by rewrite isSpace_lowerChar, Hc.
  - done.
Qed.

Lemma normalize_trimEnd s : normalize (trimEnd s) = normalize s.
Proof.
  unfold normalize. induction s as [|c s IH]; simpl; [done|].
  destruct (trimEnd s) as [|d t] eqn:Ht.
  - simpl in IH. destruct (isSpace c) eqn:Hc; simpl.
    + by rewrite isSpace_lowerChar, Hc.
    + by rewrite isSpace_lowerChar, Hc, <- IH.
  - change (toLowerCase (String c (String d t)))
      with (String (lowerChar c) (toLowerCase (String d t))).
    cbn [stripSpaces]. by rewrite IH.
Qed.

Lemma normalize_trim s : normalize (trim s) = normalize s.
Proof. unfold trim. by rewrite normalize_trimEnd, normalize_trimStart. Qed.

(** ** The previous-state lookups *)

Lemma fold_insert_lookup {A B} (key : A → string) (val : A → B) (data : list A) (k : string) :
  fold_left (λ (m : gmap string B) row, <[key row := val row]> m) data ∅ !! k
  = val <$> lastWithKey key k data.
Proof.
  unfold lastWithKey.
  induction data as [|x data IH] using rev_ind; [done|].
  rewrite fold_left_app. simpl. rewrite filter_app.
  rewrite filter_cons, filter_nil. destruct (decide (key x = k)) as [<-|Hne].
  - rewrite lookup_insert_eq. by rewrite last_snoc.
  - rewrite lookup_insert_ne by done. by rewrite app_nil_r.
Qed.

Lemma loadExisting_lookup (waData : list WaRow) (k : string) :
  loadExistingWorkingAlerts_ waData !! k = existingOf <$> lastWithKey waKey k waData.
Proof. apply fold_insert_lookup. Qed.

Lemma loadPreviousRaw_lookup (rawData : list RawRow) (k : string) :
  loadPreviousRawData_ rawData !! k = rawFirstSeen <$> lastWithKey rawKey k rawData.
Proof. apply fold_insert_lookup. Qed.

(** ** What the sync writes *)

Lemma syncRow_Some hr t prev idx row raw :
  syncRow hr t prev idx row = Some raw →
  skipped row = false ∧ rawLr raw = row
  ∧ rawSourceRow raw = hr + 1 + Z.of_nat idx
  ∧ rawThreadKey raw = computeThreadKey_ row
  ∧ rawRowHash raw = computeRowHash_ row.
Proof.
  unfold syncRow, skipped. destruct (_ && _); [done|].
  intros [= <-]. done.
Qed.

Lemma syncRow_is_Some hr t prev idx row :
  skipped row = false → is_Some (syncRow hr t prev idx row).
Proof. unfold syncRow, skipped. intros ->. eauto. Qed.

Lemma elem_of_syncRows hr t prev i0 lrData raw :
  raw ∈ syncRows hr t prev i0 lrData ↔
  ∃ idx row, lrData !! idx = Some row
             ∧ syncRow hr t prev (i0 + idx) row = Some raw.
Proof.
  revert i0. induction lrData as [|row rest IH]; intros i0; simpl.
  - split; [by intros ?%elem_of_nil|]. by intros (idx & r & ? & _).
  - destruct (syncRow hr t prev i0 row) as [r0|] eqn:Hrow.
    + rewrite elem_of_cons, IH. split.
      * intros [->|(idx & r & Hl & Hs)].
        -- exists 0%nat, row. by rewrite Nat.add_0_r.
        -- exists (S idx), r. by rewrite Nat.add_succ_r.
      * intros ([|idx] & r & Hl & Hs); simpl in Hl.
        -- left. rewrite Nat.add_0_r in Hs. congruence.
        -- right. exists idx, r. by rewrite Nat.add_succ_r in Hs.
    + rewrite IH. split.
      * intros (idx & r & Hl & Hs). exists (S idx), r. by rewrite Nat.add_succ_r.
      * intros ([|idx] & r & Hl & Hs); simpl in Hl.
        -- rewrite Nat.add_0_r in Hs. congruence.
        -- exists idx, r. by rewrite Nat.add_succ_r in Hs.
Qed.

Section Sync.
Context {S : ArraySort}.

Lemma elem_of_updateWorkingAlerts (waData : list WaRow) (rawRows : list RawRow) (o : WaRow) :
  o ∈ updateWorkingAlerts_ waData rawRows ↔
  ∃ raw, raw ∈ rawRows
         ∧ o = applyComposed (reconcileRow (loadExistingWorkingAlerts_ waData) raw).
Proof.
  unfold updateWorkingAlerts_. rewrite list_elem_of_fmap. split.
  - intros (y & -> & Hy). rewrite sortRows_perm in Hy.
    apply list_elem_of_fmap in Hy as (raw & -> & Hraw). eauto.
  - intros (raw & Hraw & ->). eexists. split; [done|].
    rewrite sortRows_perm. apply list_elem_of_fmap. eauto.
Qed.

(** A completed sync, taken apart: the grid it read and the two tables it
    wrote. *)
Lemma sync_complete_inv config syncTime w w' :
  syncFromLiveRamp config syncTime w = (w', SyncComplete) →
  ∃ grid rawData waData,
    source w = Tab grid ∧ rawSheet w = Some rawData ∧ waSheet w = Some waData
    ∧ let rawRows := syncRows (headerRowOf config) syncTime
                       (loadPreviousRawData_ rawData) 0
                       (readLrData (headerRowOf config) grid) in
      rawSheet w' = Some rawRows
      ∧ waSheet w' = Some (updateWorkingAlerts_ waData rawRows)
      ∧ source w' = source w ∧ pushLog w' = pushLog w.
Proof.
  unfold syncFromLiveRamp. intros H.
  destruct (lockBusy w); [done|].
  destruct (isEmpty _); [done|].
  destruct (negb _); [done|].
  destruct (source w) as [| |grid] eqn:Hsrc; [done|done|].
  destruct (_ || _); [done|].
  destruct (_ <=? _); [done|].
  destruct (rawSheet w) as [rawData|] eqn:Hraw; [|done].
  simpl in H. destruct (waSheet w) as [waData|] eqn:Hwa; [|done].
  injection H as <-. exists grid, rawData, waData. simpl. by rewrite Hsrc.
Qed.

Lemma sync_output_row config syncTime w w' out o :
  syncFromLiveRamp config syncTime w = (w', SyncComplete) →
  waSheet w' = Some out → o ∈ out →
  ∃ waData raw, waSheet w = Some waData
    ∧ o = applyComposed (reconcileRow (loadExistingWorkingAlerts_ waData) raw).
Proof.
  intros (grid & rawData & waData & _ & _ & Hwa & _ & Hout & _)%sync_complete_inv Hw' Ho.
  rewrite Hout in Hw'. injection Hw' as <-.
  apply elem_of_updateWorkingAlerts in Ho as (raw & _ & ->). eauto.
Qed.

End Sync.

(** ** Fingerprinting *)

Example simpleHash_abc : simpleHash_ "abc" = "22ci".
Proof. vm_compute. reflexivity. Qed.

(** C5. [computeThreadKey_] is a function of the Product, Workflow, Issue
    and Request cells alone, each read as [String(cell || "")]: two rows
    that agree on these four cells have the same thread key whatever their
    Date (and comment, and resolved flag), and the key is the hash of the
    four coerced texts joined with a bar. *)
Theorem threadKey_identity_stable (r1 r2 : LrRow) :
  lrProduct r1 = lrProduct r2 →
  lrWorkflow r1 = lrWorkflow r2 →
  lrIssue r1 = lrIssue r2 →
  lrRequest r1 = lrRequest r2 →
  computeThreadKey_ r1 = computeThreadKey_ r2
  ∧ computeThreadKey_ r1
    = simpleHash_ (join "|" [strOrEmpty (lrProduct r2); strOrEmpty (lrWorkflow r2);
                             strOrEmpty (lrIssue r2); strOrEmpty (lrRequest r2)]).
Proof.
  intros Hp Hw Hi Hr. unfold computeThreadKey_. rewrite Hp, Hw, Hi, Hr.
  split; [done|]. unfold join. simpl. done.
Qed.

Lemma threadKey_identity_stable_witness :
  let later := mkLrRow (Text "03/15/2026") (Text "Pixel") (Text "W1") (Text "Cannot decommission")
                 (Text "Please advise") (Text "seen") (Bool true) in
  lrDate Scenario.alert ≠ lrDate later
  ∧ computeThreadKey_ Scenario.alert = computeThreadKey_ later.
Proof.
  split; [discriminate|].
  apply (threadKey_identity_stable Scenario.alert
           (mkLrRow (Text "03/15/2026") (Text "Pixel") (Text "W1") (Text "Cannot decommission")
              (Text "Please advise") (Text "seen") (Bool true))); reflexivity.
Defined.

(** ** Reconciliation *)

Lemma reconciled_keys ex raw :
  let o := applyComposed (reconcileRow ex raw) in
  waThreadKey o = rawThreadKey raw ∧ waSourceRow o = rawSourceRow raw
  ∧ waRowHash o = rawRowHash raw ∧ waLr o = rawLr raw
  ∧ waKey o = rawKey raw.
Proof.
  unfold waKey, rawKey, reconcileRow.
  destruct (ex !! _) as [e|]; simpl; [|done].
  destruct (negb _); [destruct (readyToResolve e)|]; done.
Qed.


(** On two text cells the formula and the loop compose alike. *)
Lemma composeFormulaValue_text (t f : string) :
  composeFormulaValue (Text t) (Text f) = autoComposed (Text t) (Text f)
  ∧ strOrEmpty (autoComposed (Text t) (Text f)) = composeTexts t f.
Proof. by destruct t, f. Qed.

(** What a written row takes from the entry found under its key. *)
Lemma reconciled_from_entry ex raw e :
  ex !! rawKey raw = Some e →
  let o := applyComposed (reconcileRow ex raw) in
  (waTemplate o = template e ∧ waFreeText o = freeText e
   ∧ waPushReady o = pushReady e ∧ waLastPushedAt o = lastPushedAt e
   ∧ waLastPushedText o = lastPushedText e
   ∧ waReadyToResolve o = readyToResolve e ∧ waNotes o = notes e)
  ∧ (rowHash e = rawRowHash raw →
     waGroup o = group e ∧ waLrUpdatedAfterRes o = lrUpdatedAfterRes e)
  ∧ (rowHash e ≠ rawRowHash raw → readyToResolve e = false →
     waGroup o = "Updated" ∧ waLrUpdatedAfterRes o = lrUpdatedAfterRes e)
  ∧ (rowHash e ≠ rawRowHash raw → readyToResolve e = true →
     waGroup o = "Resolved" ∧ waLrUpdatedAfterRes o = true)
  ∧ (lrUpdatedAfterRes e = true → waLrUpdatedAfterRes o = true).
Proof.
  unfold rawKey, reconcileRow. intros ->. simpl.
  destruct (String.eqb_spec (rowHash e) (rawRowHash raw)) as [Heq|Hne];
    destruct (readyToResolve e), (lrUpdatedAfterRes e); simpl;
    repeat split; intros; try done; try contradiction; try discriminate.
Qed.

(** The unchanged-hash branch hands the stored group on as it is. *)
Lemma unchanged_hash_keeps_group ex raw e :
  ex !! rawKey raw = Some e →
  rowHash e = rawRowHash raw →
  waGroup (applyComposed (reconcileRow ex raw)) = group e.
Proof.
  unfold rawKey, reconcileRow. intros -> ->. simpl.
  by rewrite String.eqb_refl.
Qed.

Section Reconciliation.
Context {S : ArraySort}.

(** C4 (as amended). A fetched row is left out of both tables exactly when
    its Date, Product and Workflow cells are all empty (falsy); otherwise
    [Raw_Alerts] and [Working_Alerts] each get a row for its position. *)
Theorem blank_row_skip_rule config syncTime w w' grid idx row :
  syncFromLiveRamp config syncTime w = (w', SyncComplete) →
  source w = Tab grid →
  readLrData (headerRowOf config) grid !! idx = Some row →
  let pos := headerRowOf config + 1 + Z.of_nat idx in
  let blank := negb (truthy (lrDate row)) && negb (truthy (lrProduct row))
               && negb (truthy (lrWorkflow row)) in
  ((∃ rows raw, rawSheet w' = Some rows ∧ raw ∈ rows ∧ rawSourceRow raw = pos)
   ↔ blank = false)
  ∧ ((∃ rows wa, waSheet w' = Some rows ∧ wa ∈ rows ∧ waSourceRow wa = pos)
     ↔ blank = false).
Proof.
  intros Hsync Hsrc Hrow pos blank.
  apply sync_complete_inv in Hsync
    as (grid' & rawData & waData & Hsrc' & _ & _ & Hraw & Hwa & _).
  rewrite Hsrc in Hsrc'. injection Hsrc' as <-.
  set (prev := loadPreviousRawData_ rawData) in *.
  set (hr := headerRowOf config) in *.
  assert (Hin : ∀ raw, raw ∈ syncRows hr syncTime prev 0 (readLrData hr grid) →
                       rawSourceRow raw = pos → blank = false).
  { intros raw (idx' & row' & Hl & Hs)%elem_of_syncRows Hpos.
    apply syncRow_Some in Hs as (Hsk & _ & Hp & _).
    assert (idx' = idx) as -> by (subst pos; simpl in Hp; lia).
    rewrite Hrow in Hl. injection Hl as <-. exact Hsk. }
  assert (Hout : blank = false →
                 ∃ raw, raw ∈ syncRows hr syncTime prev 0 (readLrData hr grid)
                        ∧ rawSourceRow raw = pos).
  { intros Hb. destruct (syncRow_is_Some hr syncTime prev idx row Hb) as [raw Hs].
    exists raw. split.
    - apply elem_of_syncRows. exists idx, row. done.
    - by apply syncRow_Some in Hs as (_ & _ & Hp & _). }
  split; split.
  - intros (rows & raw & Hr & Hel & Hp). rewrite Hraw in Hr. injection Hr as <-. eauto.
  - intros (raw & Hel & Hp)%Hout. eauto.
  - intros (rows & wa & Hr & Hel & Hp). rewrite Hwa in Hr. injection Hr as <-.
    apply elem_of_updateWorkingAlerts in Hel as (raw & Hel & ->).
    apply (Hin raw Hel). rewrite <- Hp. symmetry. apply reconciled_keys.
  - intros (raw & Hel & Hp)%Hout. eexists _, _. split; [done|]. split.
    + apply elem_of_updateWorkingAlerts. eauto.
    + rewrite <- Hp. apply reconciled_keys.
Qed.

(** A written row whose composite key stands for a row of the previous
    table has been reconciled against the entry made from that row. *)
Lemma sync_row_entry config syncTime w w' waData out o prev :
  syncFromLiveRamp config syncTime w = (w', SyncComplete) →
  waSheet w = Some waData →
  waSheet w' = Some out →
  o ∈ out →
  lastWithKey waKey (waKey o) waData = Some prev →
  ∃ raw, o = applyComposed (reconcileRow (loadExistingWorkingAlerts_ waData) raw)
         ∧ loadExistingWorkingAlerts_ waData !! rawKey raw = Some (existingOf prev)
         ∧ rawRowHash raw = waRowHash o.
Proof.
  intros Hsync Hwa Hout Ho Hprev.
  destruct (sync_output_row _ _ _ _ _ _ Hsync Hout Ho) as (waData' & raw & Hwa' & ->).
  rewrite Hwa in Hwa'. injection Hwa' as <-.
  destruct (reconciled_keys (loadExistingWorkingAlerts_ waData) raw)
    as (_ & _ & Hh & _ & Hk).
  cbv zeta in Hh, Hk. exists raw. split; [done|]. split; [|done].
  by rewrite <- Hk, loadExisting_lookup, Hprev.
Qed.

(** C2. Every row that a completed sync writes to [Working_Alerts] and
    whose composite key is carried by a row of the previous
    [Working_Alerts] table has the Template, FreeText, PushReady,
    LastPushedAt, LastPushedText, ReadyToResolve and InternalNotes cells of
    that previous row (the last one, when several carry the key),
    whichever branch set its group. *)
Theorem human_fields_carried_forward config syncTime w w' waData out o prev :
  syncFromLiveRamp config syncTime w = (w', SyncComplete) →
  waSheet w = Some waData →
  waSheet w' = Some out →
  o ∈ out →
  lastWithKey waKey (waKey o) waData = Some prev →
  waTemplate o = waTemplate prev
  ∧ waFreeText o = waFreeText prev
  ∧ waPushReady o = waPushReady prev
  ∧ waLastPushedAt o = waLastPushedAt prev
  ∧ waLastPushedText o = waLastPushedText prev
  ∧ waReadyToResolve o = waReadyToResolve prev
  ∧ waNotes o = waNotes prev.
Proof.
  intros Hsync Hwa Hout Ho Hprev.
  destruct (sync_row_entry _ _ _ _ _ _ _ _ Hsync Hwa Hout Ho Hprev) as (raw & -> & He & _).
  destruct (reconciled_from_entry _ _ _ He) as [H _]. exact H.
Qed.



(** C9. For a row that a completed sync writes and whose composite key is
    carried by a row of the previous [Working_Alerts] table: a row hash
    other than the stored one, with ReadyToResolve ticked in the previous
    row, gives group Resolved and raises the updated-after-resolution
    flag; and a flag that is up in the previous row stays up. *)
Theorem sticky_post_resolution_flag config syncTime w w' waData out o prev :
  syncFromLiveRamp config syncTime w = (w', SyncComplete) →
  waSheet w = Some waData →
  waSheet w' = Some out →
  o ∈ out →
  lastWithKey waKey (waKey o) waData = Some prev →
  (waRowHash prev ≠ waRowHash o → waReadyToResolve prev = true →
   waGroup o = "Resolved" ∧ waLrUpdatedAfterRes o = true)
  ∧ (waLrUpdatedAfterRes prev = true → waLrUpdatedAfterRes o = true).
Proof.
  intros Hsync Hwa Hout Ho Hprev.
  destruct (sync_row_entry _ _ _ _ _ _ _ _ Hsync Hwa Hout Ho Hprev) as (raw & Heq & He & Hh).
  destruct (reconciled_from_entry _ _ _ He) as (_ & _ & _ & Hres & Hflag).
  cbv zeta in Hres, Hflag. rewrite <- Heq, Hh in Hres. rewrite <- Heq in Hflag.
  split; [exact Hres|exact Hflag].
Qed.

End Reconciliation.

Lemma blank_row_skip_rule_witness :
  let w := Tables.worldOf [Scenario.headerCells; Scenario.alert; Tables.dateOnly] [] in
  let w' := fst (syncFromLiveRamp Scenario.config Tables.syncTime2 w) in
  ((∃ rows raw, rawSheet w' = Some rows ∧ raw ∈ rows ∧ rawSourceRow raw = 3) ↔ false = false)
  ∧ ((∃ rows wa, waSheet w' = Some rows ∧ wa ∈ rows ∧ waSourceRow wa = 3) ↔ false = false).
Proof.
  apply (blank_row_skip_rule Scenario.config Tables.syncTime2
           (Tables.worldOf [Scenario.headerCells; Scenario.alert; Tables.dateOnly] [])
           _ [Scenario.headerCells; Scenario.alert; Tables.dateOnly] 1 Tables.dateOnly);
    vm_compute; reflexivity.
Defined.

(** C4, as stated, fails. A row whose Product, Workflow, Issue and Request
    are all empty but which has a date is written to both tables (position
    2), and a row with an issue and a request but no date, product or
    workflow is left out (position 3). *)
Lemma blank_row_claim_counterexample :
  let w := Tables.worldOf [Scenario.headerCells; Tables.dateOnly; Tables.issueOnly] [] in
  let run := syncFromLiveRamp Scenario.config Tables.syncTime2 w in
  forallb (λ c, negb (truthy c))
    [lrProduct Tables.dateOnly; lrWorkflow Tables.dateOnly;
     lrIssue Tables.dateOnly; lrRequest Tables.dateOnly] = true
  ∧ truthy (lrIssue Tables.issueOnly) = true
  ∧ snd run = SyncComplete
  ∧ Tables.rawPositions (fst run) = Some [2]
  ∧ Tables.waPositions (fst run) = Some [2].
Proof. vm_compute. repeat split; reflexivity. Qed.

Lemma human_fields_carried_forward_witness :
  waTemplate Tables.resyncedRow = waTemplate Tables.pushedRow
  ∧ waFreeText Tables.resyncedRow = waFreeText Tables.pushedRow
  ∧ waPushReady Tables.resyncedRow = waPushReady Tables.pushedRow
  ∧ waLastPushedAt Tables.resyncedRow = waLastPushedAt Tables.pushedRow
  ∧ waLastPushedText Tables.resyncedRow = waLastPushedText Tables.pushedRow
  ∧ waReadyToResolve Tables.resyncedRow = waReadyToResolve Tables.pushedRow
  ∧ waNotes Tables.resyncedRow = waNotes Tables.pushedRow.
Proof.
  apply (human_fields_carried_forward Scenario.config Tables.syncTime2
           Scenario.afterPush Scenario.afterSync2 [Tables.pushedRow]
           [Tables.resyncedRow] Tables.resyncedRow Tables.pushedRow);
    try (vm_compute; reflexivity).
  constructor.
Defined.



Lemma sticky_post_resolution_flag_witness :
  waGroup Tables.reResolvedRow = "Resolved"
  ∧ waLrUpdatedAfterRes Tables.reResolvedRow = true.
Proof.
  refine (proj1 (sticky_post_resolution_flag Scenario.config Tables.syncTime2
                   (Tables.worldOf Tables.pushedGrid [Tables.resolvedRow])
                   (fst (syncFromLiveRamp Scenario.config Tables.syncTime2
                           (Tables.worldOf Tables.pushedGrid [Tables.resolvedRow])))
                   [Tables.resolvedRow] [Tables.reResolvedRow] Tables.reResolvedRow
                   Tables.resolvedRow _ _ _ _ _) _ _);
    try (vm_compute; reflexivity); try (vm_compute; discriminate).
  constructor.
Defined.

(** ** Duplicate composite keys in the prior tables *)

Lemma sync_outcome_tables `{ArraySort} config syncTime w rawData waData :
  snd (syncFromLiveRamp config syncTime (setWaSheet waData (setRawSheet rawData w)))
  = snd (syncFromLiveRamp config syncTime (setWaSheet [] (setRawSheet [] w))).
Proof.
  unfold syncFromLiveRamp. simpl.
  destruct (lockBusy w); [done|].
  destruct (isEmpty _); [done|].
  destruct (negb _); [done|].
  destruct (source w); [done|done|].
  destruct (_ || _); [done|].
  destruct (_ <=? _); done.
Qed.

(** C3 (as amended). Duplicate composite keys in the prior tables do not
    stop a sync: how a sync ends is the same for any contents of the prior
    [Raw_Alerts] and [Working_Alerts] tables as for empty ones, and each of
    the two previous-state lookups returns, for a key, the last row stored
    under it. *)
Theorem duplicate_keys_last_wins `{ArraySort} config syncTime w rawData waData :
  snd (syncFromLiveRamp config syncTime (setWaSheet waData (setRawSheet rawData w)))
  = snd (syncFromLiveRamp config syncTime (setWaSheet [] (setRawSheet [] w)))
  ∧ (∀ k, loadExistingWorkingAlerts_ waData !! k
          = existingOf <$> lastWithKey waKey k waData)
  ∧ (∀ k, loadPreviousRawData_ rawData !! k
          = rawFirstSeen <$> lastWithKey rawKey k rawData).
Proof.
  split; [apply sync_outcome_tables|].
  split; intros k; [apply loadExisting_lookup|apply loadPreviousRaw_lookup].
Qed.

(** C3, as stated, fails. With two prior [Working_Alerts] rows under one
    composite key the sync completes without an error, rewrites both
    tables, and the row it writes carries the template of the second
    duplicate. *)
Lemma duplicate_key_counterexample :
  let w := Tables.worldOf Tables.pushedGrid [Tables.pushedRow; Tables.twinRow] in
  let run := syncFromLiveRamp Scenario.config Tables.syncTime2 w in
  waKey Tables.pushedRow = waKey Tables.twinRow
  ∧ waTemplate Tables.pushedRow ≠ waTemplate Tables.twinRow
  ∧ snd run = SyncComplete
  ∧ rawSheet (fst run) ≠ rawSheet w
  ∧ waSheet (fst run) ≠ waSheet w
  ∧ Tables.waTemplates (fst run) = Some [Text "Waiting on client"].
Proof. vm_compute. repeat split; try reflexivity; discriminate. Qed.

(** ** The push loop *)

Lemma append_cons x a b : String x a +:+ b = String x (a +:+ b).
Proof. reflexivity. Qed.

Lemma append_assoc (a b c : string) : (a +:+ b) +:+ c = a +:+ b +:+ c.
Proof. induction a as [|x a IH]; [done|]. by rewrite !append_cons, IH. Qed.

Lemma pushRow_spec config t idx row st :
  pushRow config t idx row st =
  let count := bump 1 0 0 0 (psCount st) in
  let composed := trim (composedValue row) in
  match verdict config (length (psGrid st)) row with
  | NotConsidered => st
  | SkippedNotReady =>
      {| psGrid := psGrid st; psWa := psWa st; psCount := bump 0 0 0 1 count |}
  | SkippedNoChange =>
      {| psGrid := psGrid st; psWa := psWa st; psCount := bump 0 0 1 0 count |}
  | Pushed =>
      let i := Z.to_nat (waSourceRow row - 1) in
      let existingCell :=
        match psGrid st !! i with Some r => lrComment r | None => Text "" end in
      {| psGrid := alter (setComment (appendedText existingCell t composed)) i (psGrid st);
         psWa := alter (stampPushed t composed
                          (waReadyToResolve row
                           || String.eqb (trim (strOrEmpty (waTemplate row)))
                                         (readyLabel config)))
                       idx (psWa st);
         psCount := bump 0 1 0 0 count |}
  | Failed =>
      {| psGrid := psGrid st; psWa := psWa st;
         psCount := pushError ("Row " +:+ numToString (waSourceRow row) +:+ ": "
                               +:+ rangeMessage) count |}
  end.
Proof.
  unfold pushRow, verdict, eligible, lrCellIndex.
  destruct (isEmpty (trim (composedValue row))); [done|].
  rewrite negb_orb.
  destruct (negb (waPushReady row) && negb _); [done|]. simpl.
  destruct (String.eqb (normalize _) (normalize _)); [done|].
  destruct ((1 <=? waSourceRow row) && _); done.
Qed.

Lemma countVerdict_cons config n v row rows :
  countVerdict config n v (row :: rows)
  = (indicator config n row v + countVerdict config n v rows)%nat.
Proof.
  unfold countVerdict, indicator. rewrite filter_cons.
  destruct (decide (verdict config n row = v)); done.
Qed.

Lemma pushRow_step config t idx row st pre rest :
  psWa st = pre ++ row :: rest →
  length pre = idx →
  let n := length (psGrid st) in
  let st1 := pushRow config t idx row st in
  let c := psCount st in
  let c1 := psCount st1 in
  length (psGrid st1) = n
  ∧ psWa st1 = (pre ++ [rowAfterPush config t n row]) ++ rest
  ∧ rowsPushed c1 = (rowsPushed c + indicator config n row Pushed)%nat
  ∧ rowsSkippedNoChange c1 = (rowsSkippedNoChange c + indicator config n row SkippedNoChange)%nat
  ∧ rowsSkippedNotReady c1 = (rowsSkippedNotReady c + indicator config n row SkippedNotReady)%nat
  ∧ length (errors c1) = (length (errors c) + indicator config n row Failed)%nat
  ∧ rowsConsidered c1
    = (rowsConsidered c + (indicator config n row Pushed
                           + indicator config n row SkippedNoChange
                           + indicator config n row SkippedNotReady
                           + indicator config n row Failed))%nat
  ∧ (indicator config n row Pushed = 0%nat → psGrid st1 = psGrid st).
Proof.
  intros Hwa Hlen n st1 c c1. subst st1 c1 c.
  rewrite pushRow_spec. fold n. unfold rowAfterPush, indicator.
  rewrite <- (app_assoc pre). simpl.
  destruct (verdict config n row) eqn:Hv; simpl;
    repeat split; try done; try lia; try (by rewrite ?length_alter);
    try (by rewrite length_app; simpl; lia).
  rewrite Hwa, <- Hlen, <- (Nat.add_0_r (length pre)), alter_app_r. done.
Qed.

Lemma pushRows_spec config t rows : ∀ idx st pre,
  psWa st = pre ++ rows →
  length pre = idx →
  let n := length (psGrid st) in
  let st' := pushRows config t idx rows st in
  let c := psCount st in
  let c' := psCount st' in
  length (psGrid st') = n
  ∧ psWa st' = pre ++ (rowAfterPush config t n <$> rows)
  ∧ rowsPushed c' = (rowsPushed c + countVerdict config n Pushed rows)%nat
  ∧ rowsSkippedNoChange c'
    = (rowsSkippedNoChange c + countVerdict config n SkippedNoChange rows)%nat
  ∧ rowsSkippedNotReady c'
    = (rowsSkippedNotReady c + countVerdict config n SkippedNotReady rows)%nat
  ∧ length (errors c') = (length (errors c) + countVerdict config n Failed rows)%nat
  ∧ rowsConsidered c'
    = (rowsConsidered c + (countVerdict config n Pushed rows
                           + countVerdict config n SkippedNoChange rows
                           + countVerdict config n SkippedNotReady rows
                           + countVerdict config n Failed rows))%nat
  ∧ (countVerdict config n Pushed rows = 0%nat → psGrid st' = psGrid st).
Proof.
  induction rows as [|row rest IH]; intros idx st pre Hwa Hlen; simpl.
  - unfold countVerdict. simpl. rewrite Hwa.
    repeat split; try done; lia.
  - destruct (pushRow_step config t idx row st pre rest Hwa Hlen)
      as (Hn & Hwa1 & Hp & Hnc & Hnr & He & Hc & Hg).
    specialize (IH (S idx) (pushRow config t idx row st)
                   (pre ++ [rowAfterPush config t (length (psGrid st)) row]) Hwa1).
    rewrite length_app in IH. simpl in IH.
    specialize (IH ltac:(lia)). simpl in IH. rewrite Hn in IH.
    destruct IH as (Hn' & Hwa' & Hp' & Hnc' & Hnr' & He' & Hc' & Hg').
    rewrite !countVerdict_cons.
    repeat split; try lia.
    + by rewrite Hwa', <- app_assoc.
    + intros H0. rewrite Hg' by lia. apply Hg. lia.
Qed.


Lemma verdict_SkippedNoChange config n row :
  verdict config n row = SkippedNoChange ↔ duplicateRow config row = true.
Proof.
  unfold verdict, duplicateRow. rewrite !normalize_trim.
  destruct (isEmpty _); simpl; [done|].
  destruct (eligible config row); simpl; [|done].
  destruct (String.eqb _ _); [done|].
  destruct (_ && _); done.
Qed.

Lemma verdict_rowAfterPush config t n row :
  verdict config n (rowAfterPush config t n row)
  = match verdict config n row with
    | Pushed => SkippedNoChange
    | v => v
    end.
Proof.
  unfold rowAfterPush. destruct (verdict config n row) eqn:Hv; try done.
  set (r' := stampPushed _ _ _ row).
  revert Hv. unfold verdict, eligible.
  change (composedValue r') with (composedValue row).
  change (waLastPushedText r') with (trim (composedValue row)).
  change (waPushReady r') with (waPushReady row).
  change (waTemplate r') with (waTemplate row).
  destruct (isEmpty _); [done|].
  destruct (negb _); [done|].
  intros _. by rewrite !normalize_trim, String.eqb_refl.
Qed.

Lemma rowAfterPush_again config t t' n row :
  rowAfterPush config t' n (rowAfterPush config t n row) = rowAfterPush config t n row.
Proof.
  unfold rowAfterPush at 1. rewrite verdict_rowAfterPush.
  destruct (verdict config n row); done.
Qed.

Lemma countVerdict_after_push config t n rows :
  countVerdict config n Pushed (rowAfterPush config t n <$> rows) = 0%nat
  ∧ countVerdict config n SkippedNoChange (rowAfterPush config t n <$> rows)
    = (countVerdict config n SkippedNoChange rows + countVerdict config n Pushed rows)%nat.
Proof.
  induction rows as [|row rows [IH1 IH2]]; [done|].
  rewrite fmap_cons, !countVerdict_cons, IH1, IH2. unfold indicator.
  rewrite verdict_rowAfterPush.
  destruct (verdict config n row); simpl; split; lia.
Qed.


Lemma duplicate_count config n rows :
  countVerdict config n SkippedNoChange rows
  = length (filter (λ row, duplicateRow config row = true) rows).
Proof.
  unfold countVerdict. f_equal. apply list_filter_iff.
  intros row. apply verdict_SkippedNoChange.
Qed.

(** A completed push cycle, taken apart. *)
Lemma push_complete_inv config stamp logStamp runId w w' c :
  pushUpdatesToLiveRamp config stamp logStamp runId w = (w', PushComplete c) →
  ∃ grid waData,
    lockBusy w = false
    ∧ String.eqb (Enable_Writeback_To_LR config) "TRUE" = true
    ∧ source w = Tab grid ∧ waSheet w = Some waData ∧ waData ≠ []
    ∧ let st := pushRows config (stamp +:+ " ET") 0 waData
                  {| psGrid := grid; psWa := waData; psCount := noCounters |} in
      c = psCount st
      ∧ w' = logPush_ logStamp runId c (setWaSheet (psWa st) (setSource (psGrid st) w)).
Proof.
  unfold pushUpdatesToLiveRamp. intros H.
  destruct (lockBusy w); [done|].
  destruct (String.eqb _ "TRUE"); [|done]. simpl in H.
  destruct (waSheet w) as [[|row rows]|]; [done| |done].
  destruct (source w) as [| |grid]; [done|done|].
  injection H as <- <-. exists grid, (row :: rows). done.
Qed.

Lemma push_runs config stamp logStamp runId w grid waData :
  lockBusy w = false →
  String.eqb (Enable_Writeback_To_LR config) "TRUE" = true →
  source w = Tab grid → waSheet w = Some waData → waData ≠ [] →
  let st := pushRows config (stamp +:+ " ET") 0 waData
              {| psGrid := grid; psWa := waData; psCount := noCounters |} in
  pushUpdatesToLiveRamp config stamp logStamp runId w
  = (logPush_ logStamp runId (psCount st) (setWaSheet (psWa st) (setSource (psGrid st) w)),
     PushComplete (psCount st)).
Proof.
  intros Hl He Hs Hw Hne. unfold pushUpdatesToLiveRamp.
  rewrite Hl, He, Hw, Hs. simpl. destruct waData; done.
Qed.

Lemma logPush_fields ts rid c w :
  lockBusy (logPush_ ts rid c w) = lockBusy w
  ∧ source (logPush_ ts rid c w) = source w
  ∧ waSheet (logPush_ ts rid c w) = waSheet w
  ∧ rawSheet (logPush_ ts rid c w) = rawSheet w.
Proof. unfold logPush_. destruct (pushLog w); done. Qed.

(** ** Writeback *)

(** C6 (as amended). When a row is pushed, the comment cell of its
    LiveRamp row becomes the text of the old value with surrounding white
    space trimmed, then two newlines, the formatted time and [ ET], a
    newline, and [Horizon: ] with the trimmed composed message; when the
    trimmed old text is empty the new value starts with the time. *)
Theorem append_only_writeback config stamp idx row st lr :
  verdict config (length (psGrid st)) row = Pushed →
  psGrid st !! Z.to_nat (waSourceRow row - 1) = Some lr →
  let old := trim (strOrEmpty (lrComment lr)) in
  let entry := stamp +:+ " ET" +:+ newline +:+ "Horizon: " +:+ trim (composedValue row) in
  psGrid (pushRow config (stamp +:+ " ET") idx row st) !! Z.to_nat (waSourceRow row - 1)
  = Some (setComment (if isEmpty old then entry
                      else old +:+ newline +:+ newline +:+ entry) lr).
Proof.
  intros Hv Hlr old entry. rewrite pushRow_spec, Hv. simpl.
  rewrite list_lookup_alter_eq, Hlr. simpl. f_equal. f_equal.
  unfold appendedText. fold old. subst entry.
  destruct (isEmpty old) eqn:He; simpl.
  - apply isEmpty_true in He. rewrite He. by rewrite !append_assoc.
  - by rewrite !append_assoc.
Qed.

Lemma append_only_writeback_witness :
  psGrid (pushRow Scenario.config ("02/03/2026 9:00 AM" +:+ " ET") 0 Tables.twinRow
            {| psGrid := Tables.pushedGrid; psWa := [Tables.twinRow];
               psCount := noCounters |}) !! 1%nat
  = Some (setComment
            ("02/02/2026 10:15 AM ET" +:+ newline +:+ "Horizon: Investigating internally"
             +:+ newline +:+ newline
             +:+ "02/03/2026 9:00 AM ET" +:+ newline +:+ "Horizon: Waiting on client")
            Scenario.alert).
Proof.
  refine (eq_trans (append_only_writeback Scenario.config "02/03/2026 9:00 AM" 0
                      Tables.twinRow
                      {| psGrid := Tables.pushedGrid; psWa := [Tables.twinRow];
                         psCount := noCounters |}
                      (setComment ("02/02/2026 10:15 AM ET" +:+ newline
                                   +:+ "Horizon: Investigating internally") Scenario.alert)
                      _ _) _);
    vm_compute; reflexivity.
Defined.

(** C6, as stated, fails. The old comment [A ] ends in a space; after the
    push of message [B] at time [T] the cell does not hold the old value
    followed by the separator and the entry, but the trimmed [A] followed
    by them: the old value is not a prefix of the new one. *)
Lemma append_claim_counterexample :
  let w := Tables.worldOf [Scenario.headerCells; Tables.spacedAlert] [Tables.rowB] in
  let run := pushUpdatesToLiveRamp Scenario.config "T" "L" "R" w in
  Tables.comments w = [Text "Horizon Comment"; Text "A "]
  ∧ (∃ c, snd run = PushComplete c ∧ rowsPushed c = 1%nat)
  ∧ Tables.comments (fst run)
    = [Text "Horizon Comment";
       Text ("A" +:+ newline +:+ newline +:+ "T ET" +:+ newline +:+ "Horizon: B")]
  ∧ Tables.comments (fst run)
    ≠ [Text "Horizon Comment";
       Text ("A " +:+ newline +:+ newline +:+ "T ET" +:+ newline +:+ "Horizon: B")].
Proof.
  vm_compute. split; [reflexivity|]. split; [eexists; split; reflexivity|].
  split; [reflexivity|discriminate].
Qed.



(** The code's normal form is the design document's: lower-casing and
    then dropping white space is the one pass that drops white space and
    makes capitals small. *)
Lemma isSpace_isWhite c : isSpace c = Design.isWhite c.
Proof. destruct c as [[] [] [] [] [] [] [] []]; vm_compute; reflexivity. Qed.

Lemma lowerChar_small c : lowerChar c = Design.small c.
Proof. destruct c as [[] [] [] [] [] [] [] []]; vm_compute; reflexivity. Qed.

Lemma normalize_design s : normalize s = Design.normalForm s.
Proof.
  unfold normalize. induction s as [|c s IH]; simpl; [done|].
  rewrite isSpace_lowerChar, isSpace_isWhite.
  destruct (Design.isWhite c); [done|]. by rewrite lowerChar_small, IH.
Qed.

Lemma duplicateRow_design config row :
  duplicateRow config row = true ↔
  trim (composedValue row) ≠ ""
  ∧ (waPushReady row = true ∨ trim (strOrEmpty (waTemplate row)) = readyLabel config)
  ∧ Design.normalForm (composedValue row) = Design.normalForm (waLastPushedText row).
Proof.
  unfold duplicateRow, eligible.
  rewrite !andb_true_iff, negb_true_iff, isEmpty_false, orb_true_iff, !String.eqb_eq.
  rewrite !normalize_design. tauto.
Qed.

Lemma verdict_of_eligible config n row :
  trim (composedValue row) ≠ "" →
  waPushReady row = true ∨ trim (strOrEmpty (waTemplate row)) = readyLabel config →
  verdict config n row ≠ NotConsidered ∧ verdict config n row ≠ SkippedNotReady.
Proof.
  unfold verdict, eligible. intros Hc%isEmpty_false Hel. rewrite Hc.
  assert (He : waPushReady row
               || String.eqb (trim (strOrEmpty (waTemplate row))) (readyLabel config) = true).
  { apply orb_true_iff. rewrite String.eqb_eq. exact Hel. }
  rewrite He. clear He. simpl.
  destruct (String.eqb (normalize _) _); [split; discriminate|].
  destruct (_ && _); split; discriminate.
Qed.

(** C7. A considered, eligible row is skipped for no change, without any
    write, exactly when its composed message and its last pushed text are
    equal once both are lower-cased and stripped of all white space, in
    the design document's own sense of these words. In a completed push
    cycle the skipped-no-change counter is the number of such rows. A
    second cycle run right after pushes nothing: it completes, counts
    every row that the first cycle pushed under skipped-no-change, and
    leaves the LiveRamp grid and the working table unchanged. *)
Theorem duplicate_suppression config stamp logStamp runId stamp' logStamp' runId'
    w w1 c1 waData :
  pushUpdatesToLiveRamp config stamp logStamp runId w = (w1, PushComplete c1) →
  waSheet w = Some waData →
  rowsSkippedNoChange c1
  = length (filter (λ row,
              trim (composedValue row) ≠ ""
              ∧ (waPushReady row = true
                 ∨ trim (strOrEmpty (waTemplate row)) = readyLabel config)
              ∧ Design.normalForm (composedValue row)
                = Design.normalForm (waLastPushedText row)) waData)
  ∧ (∀ pushTime idx row st,
       trim (composedValue row) ≠ "" →
       waPushReady row = true ∨ trim (strOrEmpty (waTemplate row)) = readyLabel config →
       (Design.normalForm (composedValue row) = Design.normalForm (waLastPushedText row)
        ↔ pushRow config pushTime idx row st
          = {| psGrid := psGrid st; psWa := psWa st;
               psCount := bump 1 0 1 0 (psCount st) |}))
  ∧ ∃ w2 c2,
      pushUpdatesToLiveRamp config stamp' logStamp' runId' w1 = (w2, PushComplete c2)
      ∧ rowsPushed c2 = 0%nat
      ∧ rowsSkippedNoChange c2 = (rowsSkippedNoChange c1 + rowsPushed c1)%nat
      ∧ source w2 = source w1
      ∧ waSheet w2 = waSheet w1.
Proof.
  intros Hpush Hwa.
  apply push_complete_inv in Hpush
    as (grid & waData' & Hlock & Hen & Hsrc & Hwa' & Hne & Hc & Hw1).
  rewrite Hwa in Hwa'. injection Hwa' as <-.
  set (st0 := {| psGrid := grid; psWa := waData; psCount := noCounters |}) in *.
  destruct (pushRows_spec config (stamp +:+ " ET") waData 0 st0 [] eq_refl eq_refl)
    as (Hn & Hrows & Hp & Hnc & _). simpl in Hn, Hrows, Hp, Hnc.
  set (st1 := pushRows config (stamp +:+ " ET") 0 waData st0) in *.
  split; [|split].
  - rewrite Hc, Hnc. simpl. rewrite duplicate_count. f_equal.
    apply list_filter_iff. intros row. apply duplicateRow_design.
  - intros pushTime idx row st Hcons Hel. split.
    + intros Hsame.
      assert (Hdup : duplicateRow config row = true) by (by apply duplicateRow_design).
      rewrite pushRow_spec.
      apply (verdict_SkippedNoChange config (length (psGrid st))) in Hdup.
      rewrite Hdup. simpl. unfold bump. simpl. do 2 f_equal; lia.
    + intros Hrow. rewrite pushRow_spec in Hrow.
      destruct (verdict_of_eligible config (length (psGrid st)) row Hcons Hel) as [Hv1 Hv2].
      destruct (verdict config (length (psGrid st)) row) eqn:Hv; try done.
      * apply verdict_SkippedNoChange, duplicateRow_design in Hv. tauto.
      * apply (f_equal (λ s, rowsPushed (psCount s))) in Hrow. simpl in Hrow. lia.
      * apply (f_equal (λ s, rowsSkippedNoChange (psCount s))) in Hrow.
        simpl in Hrow. lia.
  - set (rows1 := rowAfterPush config (stamp +:+ " ET") (length grid) <$> waData) in *.
    destruct (logPush_fields logStamp runId c1
                (setWaSheet (psWa st1) (setSource (psGrid st1) w)))
      as (Hl1 & Hs1 & Hw1' & _).
    rewrite <- Hw1 in Hl1, Hs1, Hw1'. simpl in Hl1, Hs1, Hw1'. rewrite Hrows in Hw1'.
    assert (Hne1 : rows1 ≠ []).
    { subst rows1. destruct waData; [done|]. discriminate. }
    rewrite Hlock in Hl1.
    rewrite (push_runs config stamp' logStamp' runId' w1 (psGrid st1) rows1
               Hl1 Hen Hs1 Hw1' Hne1).
    set (st2 := pushRows config (stamp' +:+ " ET") 0 rows1
                  {| psGrid := psGrid st1; psWa := rows1; psCount := noCounters |}).
    destruct (pushRows_spec config (stamp' +:+ " ET") rows1 0
                {| psGrid := psGrid st1; psWa := rows1; psCount := noCounters |}
                [] eq_refl eq_refl)
      as (_ & Hrows2 & Hp2 & Hnc2 & _ & _ & _ & Hg2).
    simpl in Hrows2, Hp2, Hnc2, Hg2. fold st2 in Hrows2, Hp2, Hnc2, Hg2.
    rewrite Hn in Hrows2, Hp2, Hnc2, Hg2.
    destruct (countVerdict_after_push config (stamp +:+ " ET") (length grid) waData)
      as [H0 Hsum]. fold rows1 in H0, Hsum.
    rewrite H0 in Hp2. rewrite Hsum in Hnc2. specialize (Hg2 H0).
    eexists _, _. split; [reflexivity|].
    split; [exact Hp2|]. split; [rewrite Hnc2, Hc, Hnc, Hp; simpl; lia|].
    destruct (logPush_fields logStamp' runId' (psCount st2)
                (setWaSheet (psWa st2) (setSource (psGrid st2) w1)))
      as (_ & Hs2 & Hw2 & _).
    rewrite Hs2, Hw2. simpl. rewrite Hg2, Hs1, Hw1', Hrows2. split; [done|].
    f_equal. subst rows1. rewrite <- list_fmap_compose.
    apply list_fmap_ext. intros ? row _. simpl. apply rowAfterPush_again.
Qed.

(** At the scenario's tables: a message typed again in capitals, with
    spaces and a tab added, is taken for the text pushed before and
    written nowhere; and the cycle after a cycle pushes nothing. *)
Lemma duplicate_suppression_witness :
  let w := Tables.worldOf Tables.pushedGrid [Tables.twinRow; Tables.pushedRow] in
  let w1 := fst (pushUpdatesToLiveRamp Scenario.config "T" "L" "R" w) in
  let st := {| psGrid := Tables.pushedGrid; psWa := [Samples.shoutedRow];
               psCount := noCounters |} in
  composedValue Samples.shoutedRow ≠ waLastPushedText Samples.shoutedRow
  ∧ pushRow Scenario.config "T ET" 0 Samples.shoutedRow st
    = {| psGrid := psGrid st; psWa := psWa st; psCount := bump 1 0 1 0 (psCount st) |}
  ∧ ∃ w2 c2,
      pushUpdatesToLiveRamp Scenario.config "T2" "L2" "R2" w1 = (w2, PushComplete c2)
      ∧ rowsPushed c2 = 0%nat
      ∧ rowsSkippedNoChange c2 = 2%nat
      ∧ source w2 = source w1
      ∧ waSheet w2 = waSheet w1.
Proof.
  split; [vm_compute; discriminate|].
  pose proof (duplicate_suppression Scenario.config "T" "L" "R" "T2" "L2" "R2"
                (Tables.worldOf Tables.pushedGrid [Tables.twinRow; Tables.pushedRow])
                (fst (pushUpdatesToLiveRamp Scenario.config "T" "L" "R"
                        (Tables.worldOf Tables.pushedGrid
                           [Tables.twinRow; Tables.pushedRow])))
                {| rowsConsidered := 2; rowsPushed := 1; rowsSkippedNoChange := 1;
                   rowsSkippedNotReady := 0; errors := [] |}
                [Tables.twinRow; Tables.pushedRow] eq_refl eq_refl)
    as (_ & Hrow & Hagain).
  split; [|exact Hagain].
  apply (Hrow "T ET" 0%nat Samples.shoutedRow).
  - vm_compute. discriminate.
  - left. reflexivity.
  - vm_compute. reflexivity.
Defined.

(** ** The end-to-end scenario *)

(** C1, evaluated. One LiveRamp row; the first sync files it under New; a
    person picks a template and ticks push-ready; the push appends the
    entry to the comment cell and records the text. The second sync then
    files the row under Updated, because the row hash covers the comment
    cell that the push itself changed; with the LiveRamp rows put back as
    the first sync read them it files the row under New, the group it had.
    In neither case is the group Ongoing. *)
Theorem second_sync_group_in_scenario :
  Scenario.groups Scenario.afterSync1 = Some ["New"]
  ∧ Tables.comments Scenario.afterPush
    = [Text "Horizon Comment";
       Text ("02/02/2026 10:15 AM ET" +:+ newline +:+ "Horizon: Investigating internally")]
  ∧ Tables.lastPushedTexts Scenario.afterPush = Some ["Investigating internally"]
  ∧ Scenario.groups Scenario.afterSync2 = Some ["Updated"]
  ∧ Scenario.groups Scenario.afterSync2_sameRows = Some ["New"].
Proof. vm_compute. repeat split; reflexivity. Qed.

(** * Further properties of the engines *)

(** ** Composite keys *)

Lemma digit36_not_bar d : 0 ≤ d < 36 → digit36 d ≠ "|"%char.
Proof.
  intros Hd. assert (Hk : ∃ k, (k < 36)%nat ∧ d = Z.of_nat k).
  { exists (Z.to_nat d). lia. }
  destruct Hk as (k & Hk & ->).
  do 36 (destruct k as [|k]; [vm_compute; discriminate|]). lia.
Qed.

Lemma toString36_digits_no_bar fuel : ∀ n acc,
  0 ≤ n → hasChar "|" acc = false →
  hasChar "|" (toString36_digits fuel n acc) = false.
Proof.
  induction fuel as [|fuel IH]; intros n acc Hn Hacc; simpl; [done|].
  assert (Hd : hasChar "|" (String (digit36 (n mod 36)) acc) = false).
  { simpl. rewrite Hacc, orb_false_r. apply Ascii.eqb_neq, digit36_not_bar.
    apply Z.mod_pos_bound. lia. }
  destruct (n / 36 =? 0); [done|]. apply IH; [|done].
  apply Z.div_pos; lia.
Qed.

Lemma simpleHash_no_bar str : hasChar "|" (simpleHash_ str) = false.
Proof. apply toString36_digits_no_bar; [lia|done]. Qed.

Lemma numToString_inj a b : numToString a = numToString b → a = b.
Proof.
  unfold numToString. intros H. apply DecimalZ.to_int_inj.
  assert (Hn : ∀ z, Z.to_int z ≠ Decimal.Pos Decimal.Nil
                    ∧ Z.to_int z ≠ Decimal.Neg Decimal.Nil).
  { intros [|p|p]; simpl; split; try discriminate;
      intros [= Hp]; by apply DecimalPos.Unsigned.to_uint_nonnil in Hp. }
  apply (f_equal NilZero.int_of_string) in H.
  rewrite !NilZero.isi in H by apply Hn. congruence.
Qed.

Lemma bar_split a b x y :
  hasChar "|" a = false → hasChar "|" b = false →
  a +:+ String "|" x = b +:+ String "|" y → a = b ∧ x = y.
Proof.
  revert b. induction a as [|c a IH]; intros [|d b] Ha Hb H.
  - change (String "|" x = String "|" y) in H. by injection H as ->.
  - change (String "|" x = String d (b +:+ String "|" y)) in H.
    injection H as <- _. simpl in Hb. done.
  - change (String c (a +:+ String "|" x) = String "|" y) in H.
    injection H as -> _. simpl in Ha. done.
  - change (String c (a +:+ String "|" x) = String d (b +:+ String "|" y)) in H.
    injection H as -> H. simpl in Ha, Hb.
    apply orb_false_elim in Ha as [_ Ha]. apply orb_false_elim in Hb as [_ Hb].
    destruct (IH b Ha Hb H) as [-> ->]. done.
Qed.

(** A composite key determines the thread key and the source row it was
    built from, as long as the thread keys come out of [simpleHash_]. *)
Lemma compositeKeyOf_inj s1 s2 n1 n2 :
  compositeKeyOf (simpleHash_ s1) n1 = compositeKeyOf (simpleHash_ s2) n2 →
  simpleHash_ s1 = simpleHash_ s2 ∧ n1 = n2.
Proof.
  unfold compositeKeyOf. intros H.
  change (simpleHash_ s1 +:+ String "|" (numToString n1)
          = simpleHash_ s2 +:+ String "|" (numToString n2)) in H.
  apply bar_split in H as [H1 H2]; try apply simpleHash_no_bar.
  split; [done|]. by apply numToString_inj.
Qed.

Lemma NoDup_fmap_eq {A B} (f : A → B) (l : list A) x y :
  NoDup (f <$> l) → x ∈ l → y ∈ l → f x = f y → x = y.
Proof.
  induction l as [|a l IH]; [by intros _ ?%elem_of_nil|].
  rewrite fmap_cons, NoDup_cons. intros [Ha Hl].
  rewrite !elem_of_cons. intros [->|Hx] [->|Hy] Hf; try done.
  - exfalso. apply Ha. rewrite Hf. by apply list_elem_of_fmap_2.
  - exfalso. apply Ha. rewrite <- Hf. by apply list_elem_of_fmap_2.
  - by apply IH.
Qed.

Lemma lastWithKey_unique {A} (key : A → string) (data : list A) x :
  NoDup (key <$> data) → x ∈ data → lastWithKey key (key x) data = Some x.
Proof.
  unfold lastWithKey. induction data as [|a data IH]; [by intros _ ?%elem_of_nil|].
  rewrite fmap_cons, NoDup_cons. intros [Ha Hl]. rewrite elem_of_cons.
  intros [->|Hx].
  - rewrite filter_cons_True by done.
    assert (Hnil : filter (λ row, key row = key a) data = []).
    { destruct (filter (λ row, key row = key a) data) as [|z rest] eqn:Hf; [done|].
      assert (Hz : z ∈ filter (λ row, key row = key a) data)
        by (rewrite Hf; apply list_elem_of_here).
      apply list_elem_of_filter in Hz as [Hk Hz].
      exfalso. apply Ha. rewrite <- Hk. by apply list_elem_of_fmap_2. }
    by rewrite Hnil.
  - rewrite filter_cons_False.
    + by apply IH.
    + intros Hk. apply Ha. rewrite Hk. by apply list_elem_of_fmap_2.
Qed.

(** ** More on what a sync writes *)

Lemma syncRows_position_lb hr t p i0 l raw :
  raw ∈ syncRows hr t p i0 l → hr + 1 + Z.of_nat i0 ≤ rawSourceRow raw.
Proof.
  intros (idx & row & _ & Hs)%elem_of_syncRows.
  apply syncRow_Some in Hs as (_ & _ & -> & _). lia.
Qed.

Lemma syncRows_positions_NoDup hr t p l : ∀ i0,
  NoDup (rawSourceRow <$> syncRows hr t p i0 l).
Proof.
  induction l as [|row l IH]; intros i0; simpl; [constructor|].
  destruct (syncRow hr t p i0 row) as [raw|] eqn:Hrow; [|apply IH].
  rewrite fmap_cons. apply NoDup_cons. split; [|apply IH].
  intros (raw' & Heq & Hin%syncRows_position_lb)%list_elem_of_fmap.
  apply syncRow_Some in Hrow as (_ & _ & Hp & _). lia.
Qed.

Lemma syncRows_length hr t p l : ∀ i0,
  length (syncRows hr t p i0 l) = length (filter (λ row, skipped row = false) l).
Proof.
  induction l as [|row l IH]; intros i0; simpl; [done|].
  rewrite filter_cons. destruct (syncRow hr t p i0 row) as [raw|] eqn:Hrow.
  - apply syncRow_Some in Hrow as (Hsk & _).
    destruct (decide (skipped row = false)); [|done]. simpl. by rewrite IH.
  - destruct (decide (skipped row = false)) as [Hsk|]; [|apply IH].
    destruct (syncRow_is_Some hr t p i0 row Hsk) as [raw Hraw]. congruence.
Qed.

Lemma syncRows_threadKey hr t p i0 l raw :
  raw ∈ syncRows hr t p i0 l →
  ∃ str, rawThreadKey raw = simpleHash_ str.
Proof.
  intros (idx & row & _ & Hs)%elem_of_syncRows.
  apply syncRow_Some in Hs as (_ & _ & _ & -> & _).
  unfold computeThreadKey_. eauto.
Qed.

Lemma syncRows_keys_NoDup hr t p i0 l : NoDup (rawKey <$> syncRows hr t p i0 l).
Proof.
  pose proof (syncRows_positions_NoDup hr t p l i0) as Hpos.
  apply NoDup_fmap_2_strong; [|by apply NoDup_fmap_1 in Hpos].
  intros x y Hx Hy Hk.
  destruct (syncRows_threadKey _ _ _ _ _ _ Hx) as [sx Hsx].
  destruct (syncRows_threadKey _ _ _ _ _ _ Hy) as [sy Hsy].
  unfold rawKey in Hk. rewrite Hsx, Hsy in Hk.
  apply compositeKeyOf_inj in Hk as [_ Hk].
  by apply (NoDup_fmap_eq rawSourceRow _ x y Hpos).
Qed.

Section MoreSync.
Context {S : ArraySort}.

Lemma updateWorkingAlerts_perm (waData : list WaRow) (rawRows : list RawRow) :
  updateWorkingAlerts_ waData rawRows
  ≡ₚ (λ raw, applyComposed (reconcileRow (loadExistingWorkingAlerts_ waData) raw)) <$> rawRows.
Proof.
  unfold updateWorkingAlerts_. rewrite sortRows_perm.
  by rewrite <- list_fmap_compose.
Qed.

Lemma updateWorkingAlerts_keys (waData : list WaRow) (rawRows : list RawRow) :
  waKey <$> updateWorkingAlerts_ waData rawRows ≡ₚ rawKey <$> rawRows
  ∧ waSourceRow <$> updateWorkingAlerts_ waData rawRows ≡ₚ rawSourceRow <$> rawRows.
Proof.
  rewrite !updateWorkingAlerts_perm, <- !list_fmap_compose.
  split; (erewrite list_fmap_ext; [reflexivity|]); intros ? raw _; simpl;
    apply reconciled_keys.
Qed.

(** X1. A row whose composite key is not found in the previous table is
    written as a new record: group New, all human-entered fields empty or
    unticked, the flag down and an empty composed message. *)
Theorem new_record_defaults config syncTime w w' waData out o :
  syncFromLiveRamp config syncTime w = (w', SyncComplete) →
  waSheet w = Some waData →
  waSheet w' = Some out →
  o ∈ out →
  loadExistingWorkingAlerts_ waData !! waKey o = None →
  waGroup o = "New"
  ∧ waTemplate o = Text "" ∧ waFreeText o = Text "" ∧ composedValue o = ""
  ∧ waPushReady o = false
  ∧ waLastPushedAt o = "" ∧ waLastPushedText o = ""
  ∧ waReadyToResolve o = false ∧ waLrUpdatedAfterRes o = false
  ∧ waNotes o = Text "".
Proof.
  intros Hsync Hwa Hout Ho He.
  destruct (sync_output_row _ _ _ _ _ _ Hsync Hout Ho) as (waData' & raw & Hwa' & ->).
  rewrite Hwa in Hwa'. injection Hwa' as <-.
  destruct (reconciled_keys (loadExistingWorkingAlerts_ waData) raw) as (_ & _ & _ & _ & Hk).
  simpl in Hk. rewrite Hk in He. unfold rawKey in He.
  unfold reconcileRow. rewrite He. done.
Qed.

(** X2. For a row whose composite key is carried by a row of the previous
    [Working_Alerts] table: a row hash equal to the stored one keeps the
    group of the previous row, whatever it is, and its flag; another row
    hash with ReadyToResolve unticked in the previous row gives group
    Updated and keeps the flag. *)
Theorem group_transitions config syncTime w w' waData out o prev :
  syncFromLiveRamp config syncTime w = (w', SyncComplete) →
  waSheet w = Some waData →
  waSheet w' = Some out →
  o ∈ out →
  lastWithKey waKey (waKey o) waData = Some prev →
  (waRowHash prev = waRowHash o →
   waGroup o = waGroup prev ∧ waLrUpdatedAfterRes o = waLrUpdatedAfterRes prev)
  ∧ (waRowHash prev ≠ waRowHash o → waReadyToResolve prev = false →
     waGroup o = "Updated" ∧ waLrUpdatedAfterRes o = waLrUpdatedAfterRes prev).
Proof.
  intros Hsync Hwa Hout Ho Hprev.
  destruct (sync_row_entry _ _ _ _ _ _ _ _ Hsync Hwa Hout Ho Hprev) as (raw & Heq & He & Hh).
  destruct (reconciled_from_entry _ _ _ He) as (_ & Hsame & Hupd & _).
  cbv zeta in Hsame, Hupd. rewrite <- Heq, Hh in Hsame, Hupd.
  split; [exact Hsame|exact Hupd].
Qed.

(** X3. Every row written to [Working_Alerts] mirrors one fetched row: it
    carries that row's seven cells, the position of that row in the
    LiveRamp tab, and the thread key and row hash computed from those
    cells; and [Raw_Alerts] holds a row with the same cells, position and
    fingerprints. *)
Theorem written_rows_mirror_the_fetch config syncTime w w' grid out o :
  syncFromLiveRamp config syncTime w = (w', SyncComplete) →
  source w = Tab grid →
  waSheet w' = Some out →
  o ∈ out →
  (∃ idx, readLrData (headerRowOf config) grid !! idx = Some (waLr o)
          ∧ waSourceRow o = headerRowOf config + 1 + Z.of_nat idx)
  ∧ waThreadKey o = computeThreadKey_ (waLr o)
  ∧ waRowHash o = computeRowHash_ (waLr o)
  ∧ ∃ rows raw, rawSheet w' = Some rows ∧ raw ∈ rows
      ∧ rawLr raw = waLr o ∧ rawSourceRow raw = waSourceRow o
      ∧ rawThreadKey raw = waThreadKey o ∧ rawRowHash raw = waRowHash o.
Proof.
  intros Hsync Hsrc Hout Ho.
  apply sync_complete_inv in Hsync
    as (grid' & rawData & waData & Hsrc' & _ & _ & Hraw & Hwa & _).
  rewrite Hsrc in Hsrc'. injection Hsrc' as <-.
  rewrite Hwa in Hout. injection Hout as <-.
  apply elem_of_updateWorkingAlerts in Ho as (raw & Hel & ->).
  destruct (reconciled_keys (loadExistingWorkingAlerts_ waData) raw)
    as (Htk & Hpos & Hh & Hlr & _). cbv zeta in Htk, Hpos, Hh, Hlr.
  pose proof Hel as (idx & row & Hl & Hs)%elem_of_syncRows.
  apply syncRow_Some in Hs as (_ & Hr & Hp & Ht & Hrh).
  rewrite Htk, Hpos, Hh, Hlr, Hr.
  split; [exists idx; split; [done|]; rewrite Hp; simpl; lia|].
  split; [done|]. split; [done|].
  eexists _, raw. by repeat split.
Qed.

(** X4. Every row written to [Raw_Alerts] is stamped with the sync time as
    synced-at and last-seen; its first-seen is the one of the last prior
    [Raw_Alerts] row with the same composite key, and the sync time when
    there is none. *)
Theorem first_seen_carried_forward config syncTime w w' rawData rows raw :
  syncFromLiveRamp config syncTime w = (w', SyncComplete) →
  rawSheet w = Some rawData →
  rawSheet w' = Some rows →
  raw ∈ rows →
  rawSyncedAt raw = syncTime
  ∧ rawLastSeen raw = syncTime
  ∧ rawFirstSeen raw
    = match lastWithKey rawKey (rawKey raw) rawData with
      | Some prev => rawFirstSeen prev
      | None => syncTime
      end.
Proof.
  intros Hsync Hraw Hrows Hel.
  apply sync_complete_inv in Hsync
    as (grid & rawData' & waData & _ & Hraw' & _ & Hrows' & _).
  rewrite Hraw in Hraw'. injection Hraw' as <-.
  rewrite Hrows in Hrows'. injection Hrows' as ->.
  apply elem_of_syncRows in Hel as (idx & row & _ & Hs).
  unfold syncRow in Hs. destruct (_ && _); [done|]. injection Hs as <-.
  unfold rawKey. simpl. rewrite loadPreviousRaw_lookup.
  by destruct (lastWithKey _ _ _).
Qed.

(** X5. Within one sync the rows written to either table have pairwise
    distinct source positions and pairwise distinct composite keys. *)
Theorem sync_keys_unique config syncTime w w' rows out :
  syncFromLiveRamp config syncTime w = (w', SyncComplete) →
  rawSheet w' = Some rows →
  waSheet w' = Some out →
  NoDup (rawSourceRow <$> rows) ∧ NoDup (rawKey <$> rows)
  ∧ NoDup (waSourceRow <$> out) ∧ NoDup (waKey <$> out).
Proof.
  intros Hsync Hrows Hout.
  apply sync_complete_inv in Hsync
    as (grid & rawData & waData & _ & _ & _ & Hrows' & Hout' & _).
  rewrite Hrows in Hrows'. injection Hrows' as ->.
  rewrite Hout in Hout'. injection Hout' as ->.
  destruct (updateWorkingAlerts_keys waData
              (syncRows (headerRowOf config) syncTime (loadPreviousRawData_ rawData) 0
                 (readLrData (headerRowOf config) grid))) as [Hk Hp].
  rewrite Hk, Hp.
  split; [apply syncRows_positions_NoDup|]. split; [apply syncRows_keys_NoDup|].
  split; [apply syncRows_positions_NoDup|apply syncRows_keys_NoDup].
Qed.

(** X6. Both tables get one row per fetched row that is not skipped: the
    two tables have the same number of rows, the number of fetched rows
    with a non-empty Date, Product or Workflow cell. *)
Theorem sync_row_count config syncTime w w' grid rows out :
  syncFromLiveRamp config syncTime w = (w', SyncComplete) →
  source w = Tab grid →
  rawSheet w' = Some rows →
  waSheet w' = Some out →
  length out = length rows
  ∧ length rows
    = length (filter (λ row, truthy (lrDate row) || truthy (lrProduct row)
                             || truthy (lrWorkflow row) = true)
                (readLrData (headerRowOf config) grid)).
Proof.
  intros Hsync Hsrc Hrows Hout.
  apply sync_complete_inv in Hsync
    as (grid' & rawData & waData & Hsrc' & _ & _ & Hrows' & Hout' & _).
  rewrite Hsrc in Hsrc'. injection Hsrc' as <-.
  rewrite Hrows in Hrows'. injection Hrows' as ->.
  rewrite Hout in Hout'. injection Hout' as ->.
  split.
  - rewrite updateWorkingAlerts_perm. by rewrite length_fmap.
  - rewrite syncRows_length. f_equal. apply list_filter_iff. intros row.
    unfold skipped.
    destruct (truthy (lrDate row)), (truthy (lrProduct row)), (truthy (lrWorkflow row));
      simpl; split; congruence.
Qed.

End MoreSync.

(** ** How a sync ends and what it leaves alone *)

Section SyncOutcomes.
Context {S : ArraySort}.

Lemma sync_keeps_source_and_lock config syncTime w :
  source (fst (syncFromLiveRamp config syncTime w)) = source w
  ∧ lockBusy (fst (syncFromLiveRamp config syncTime w)) = lockBusy w.
Proof.
  unfold syncFromLiveRamp.
  destruct (lockBusy w) eqn:Hl; [done|].
  destruct (isEmpty _); [done|].
  destruct (negb _); [done|].
  destruct (source w) as [| |grid] eqn:Hsrc; [done|done|].
  destruct (_ || _); [done|].
  destruct (_ <=? _); [done|].
  destruct (rawSheet w) as [rawData|] eqn:Hraw; [|done].
  simpl. destruct (waSheet w) as [waData|] eqn:Hwa; simpl; by rewrite ?Hsrc.
Qed.

(** X7. A sync never writes to the LiveRamp tab or to [Push_Log], however
    it ends, and it writes [Working_Alerts] only when it completes. *)
Theorem sync_frame config syncTime w :
  let run := syncFromLiveRamp config syncTime w in
  source (fst run) = source w
  ∧ pushLog (fst run) = pushLog w
  ∧ lockBusy (fst run) = lockBusy w
  ∧ (snd run ≠ SyncComplete → waSheet (fst run) = waSheet w).
Proof.
  unfold syncFromLiveRamp.
  destruct (lockBusy w) eqn:Hl; [done|].
  destruct (isEmpty _); [done|].
  destruct (negb _); [done|].
  destruct (source w) as [| |grid] eqn:Hsrc; [done|done|].
  destruct (_ || _); [done|].
  destruct (_ <=? _); [done|].
  destruct (rawSheet w) as [rawData|] eqn:Hraw; [|done].
  simpl. destruct (waSheet w) as [waData|] eqn:Hwa; simpl; by rewrite ?Hsrc, ?Hwa.
Qed.

(** X8. A sync that ends without completing leaves every tab as it was,
    except when it stops because the [Working_Alerts] tab is missing. *)
Theorem sync_failure_leaves_tables config syncTime w w' outcome :
  syncFromLiveRamp config syncTime w = (w', outcome) →
  outcome ≠ SyncComplete →
  outcome ≠ SyncThrew WorkingAlertsTabNotFound →
  w' = w.
Proof.
  unfold syncFromLiveRamp. intros H Hc Hw.
  destruct (lockBusy w); [congruence|].
  destruct (isEmpty _); [congruence|].
  destruct (negb _); [congruence|].
  destruct (source w) as [| |grid]; [congruence|congruence|].
  destruct (_ || _); [congruence|].
  destruct (_ <=? _); [congruence|].
  destruct (rawSheet w) as [rawData|]; [|congruence].
  simpl in H. destruct (waSheet w) as [waData|]; congruence.
Qed.

(** X9. When a sync stops because the [Working_Alerts] tab is missing,
    [Raw_Alerts] has already been replaced by the rows of the new fetch. *)
Theorem sync_partial_write config syncTime w w' :
  syncFromLiveRamp config syncTime w = (w', SyncThrew WorkingAlertsTabNotFound) →
  waSheet w' = None
  ∧ ∃ grid rawData,
      source w = Tab grid ∧ rawSheet w = Some rawData
      ∧ rawSheet w' = Some (syncRows (headerRowOf config) syncTime
                              (loadPreviousRawData_ rawData) 0
                              (readLrData (headerRowOf config) grid)).
Proof.
  unfold syncFromLiveRamp. intros H.
  destruct (lockBusy w); [done|].
  destruct (isEmpty _); [done|].
  destruct (negb _); [done|].
  destruct (source w) as [| |grid]; [done|done|].
  destruct (_ || _); [done|].
  destruct (_ <=? _); [done|].
  destruct (rawSheet w) as [rawData|]; [|done].
  simpl in H. destruct (waSheet w) as [waData|] eqn:Hwa; [done|].
  injection H as <-. simpl. split; [done|]. eauto.
Qed.

(** A sync that completed completes again from any world with the same
    lock, the same LiveRamp tab and both internal tabs present. *)
Lemma sync_completes_again config t t' w w' v rawData waData :
  syncFromLiveRamp config t w = (w', SyncComplete) →
  lockBusy v = lockBusy w → source v = source w →
  rawSheet v = Some rawData → waSheet v = Some waData →
  ∃ grid, source w = Tab grid
    ∧ let rawRows := syncRows (headerRowOf config) t' (loadPreviousRawData_ rawData) 0
                       (readLrData (headerRowOf config) grid) in
      syncFromLiveRamp config t' v
      = (setWaSheet (updateWorkingAlerts_ waData rawRows) (setRawSheet rawRows v),
         SyncComplete).
Proof.
  unfold syncFromLiveRamp. intros H Hl Hs Hr Hw. rewrite Hl, Hs, Hr.
  destruct (lockBusy w); [done|].
  destruct (isEmpty _); [done|].
  destruct (negb _); [done|].
  destruct (source w) as [| |grid]; [done|done|].
  destruct (_ || _); [done|].
  destruct (_ <=? _); [done|].
  exists grid. split; [done|]. simpl. by rewrite Hw.
Qed.

End SyncOutcomes.

(** ** Two syncs in a row *)

Lemma syncRows_fmap_ext {B} (f g : RawRow → B) hr t1 t2 p1 p2 l : ∀ i0,
  (∀ j row r1 r2, l !! j = Some row →
     syncRow hr t1 p1 (i0 + j) row = Some r1 →
     syncRow hr t2 p2 (i0 + j) row = Some r2 → f r1 = g r2) →
  f <$> syncRows hr t1 p1 i0 l = g <$> syncRows hr t2 p2 i0 l.
Proof.
  induction l as [|row l IH]; intros i0 H; simpl; [done|].
  assert (Hrest : f <$> syncRows hr t1 p1 (S i0) l = g <$> syncRows hr t2 p2 (S i0) l).
  { apply IH. intros j row' r1 r2 Hj H1 H2. apply (H (S j) row' r1 r2 Hj).
    - by rewrite Nat.add_succ_r.
    - by rewrite Nat.add_succ_r. }
  destruct (syncRow hr t1 p1 i0 row) as [r1|] eqn:H1;
    destruct (syncRow hr t2 p2 i0 row) as [r2|] eqn:H2.
  - rewrite !fmap_cons, Hrest. f_equal. apply (H 0%nat row r1 r2); rewrite ?Nat.add_0_r; done.
  - apply syncRow_Some in H1 as (Hsk & _).
    destruct (syncRow_is_Some hr t2 p2 i0 row Hsk) as [? ?]. congruence.
  - apply syncRow_Some in H2 as (Hsk & _).
    destruct (syncRow_is_Some hr t1 p1 i0 row Hsk) as [? ?]. congruence.
  - exact Hrest.
Qed.

Lemma syncRow_same_core hr t1 t2 p1 p2 idx row r1 r2 :
  syncRow hr t1 p1 idx row = Some r1 →
  syncRow hr t2 p2 idx row = Some r2 →
  rawCore r2 = rawCore r1.
Proof.
  intros (_ & Hl1 & Hp1 & Ht1 & Hh1)%syncRow_Some (_ & Hl2 & Hp2 & Ht2 & Hh2)%syncRow_Some.
  unfold rawCore. congruence.
Qed.

Lemma reconcile_again ex r2 x :
  let o1 := applyComposed x in
  ex !! rawKey r2 = Some (existingOf o1) →
  rawCore r2 = (waLr o1, waThreadKey o1, waRowHash o1, waSourceRow o1) →
  applyComposed (reconcileRow ex r2) = o1.
Proof.
  intros o1 Hex [= Hl Ht Hh Hs]. unfold reconcileRow. fold (rawKey r2).
  rewrite Hex, Hl, Ht, Hh, Hs. subst o1. destruct x. simpl.
  rewrite String.eqb_refl. unfold applyComposed. simpl.
  by rewrite orb_false_r.
Qed.

Section SyncTwice.
Context {S : ArraySort}.

(** X10. A second sync run right after a completed one, with the LiveRamp
    tab unchanged and no edit in between, completes and writes the same
    [Working_Alerts] rows, up to their order; the rows it writes to
    [Raw_Alerts] have the same cells, fingerprints, positions and
    first-seen times as before. *)
Theorem sync_twice_same_tables config t1 t2 w w1 rows1 out1 :
  syncFromLiveRamp config t1 w = (w1, SyncComplete) →
  rawSheet w1 = Some rows1 →
  waSheet w1 = Some out1 →
  ∃ w2 rows2 out2,
    syncFromLiveRamp config t2 w1 = (w2, SyncComplete)
    ∧ rawSheet w2 = Some rows2 ∧ waSheet w2 = Some out2
    ∧ out2 ≡ₚ out1
    ∧ rawCore <$> rows2 = rawCore <$> rows1
    ∧ rawFirstSeen <$> rows2 = rawFirstSeen <$> rows1.
Proof.
  intros Hsync Hrows Hout.
  destruct (sync_keeps_source_and_lock config t1 w) as (Hsrc & Hlock).
  rewrite Hsync in Hsrc, Hlock. simpl in Hsrc, Hlock.
  destruct (sync_completes_again config t1 t2 w w1 w1 rows1 out1 Hsync Hlock Hsrc Hrows Hout)
    as (grid & Hgrid & Hagain). simpl in Hagain.
  pose proof Hsync as (grid' & rawData & waData & Hgrid' & _ & _ & Hrows' & Hout' & _)%sync_complete_inv.
  rewrite Hgrid in Hgrid'. injection Hgrid' as <-.
  rewrite Hrows in Hrows'. injection Hrows' as Hrows'.
  rewrite Hout in Hout'. injection Hout' as Hout'.
  set (hr := headerRowOf config) in *.
  set (lrData := readLrData hr grid) in *.
  set (p1 := loadPreviousRawData_ rawData) in *.
  set (p2 := loadPreviousRawData_ rows1) in *.
  eexists _, _, _. split; [exact Hagain|]. split; [reflexivity|]. split; [reflexivity|].
  assert (Hkeys1 : NoDup (rawKey <$> rows1)) by (rewrite Hrows'; apply syncRows_keys_NoDup).
  assert (Hkeys : NoDup (waKey <$> out1)).
  { rewrite Hout'. destruct (updateWorkingAlerts_keys waData (syncRows hr t1 p1 0 lrData)) as [-> _].
    apply syncRows_keys_NoDup. }
  split; [|split].
  - rewrite updateWorkingAlerts_perm.
    transitivity ((λ raw, applyComposed (reconcileRow (loadExistingWorkingAlerts_ waData) raw))
                    <$> syncRows hr t1 p1 0 lrData);
      [|by rewrite Hout', updateWorkingAlerts_perm].
    erewrite (syncRows_fmap_ext _ _ hr t2 t1 p2 p1 lrData 0); [reflexivity|].
    intros j row r2 r1 Hj H2 H1. simpl in H1, H2.
    pose proof (syncRow_same_core _ _ _ _ _ _ _ _ _ H1 H2) as Hcore.
    set (x := reconcileRow (loadExistingWorkingAlerts_ waData) r1).
    assert (Hin : applyComposed x ∈ out1).
    { rewrite Hout'. apply elem_of_updateWorkingAlerts. exists r1. split; [|done].
      apply elem_of_syncRows. exists j, row. done. }
    destruct (reconciled_keys (loadExistingWorkingAlerts_ waData) r1)
      as (Htk & Hpos & Hh & Hlr & Hk). cbv zeta in Htk, Hpos, Hh, Hlr, Hk. fold x in Htk, Hpos, Hh, Hlr, Hk.
    apply (reconcile_again (loadExistingWorkingAlerts_ out1) r2 x).
    + rewrite loadExisting_lookup.
      assert (Hk2 : rawKey r2 = waKey (applyComposed x)).
      { rewrite Hk. unfold rawKey. injection Hcore as _ -> _ ->. done. }
      rewrite Hk2, (lastWithKey_unique waKey out1 _ Hkeys Hin). done.
    + rewrite Hcore. unfold rawCore. by rewrite Htk, Hpos, Hh, Hlr.
  - transitivity (rawCore <$> syncRows hr t1 p1 0 lrData); [|by rewrite Hrows'].
    apply syncRows_fmap_ext.
    intros j row r2 r1 Hj H2 H1. simpl in H1, H2.
    apply (syncRow_same_core _ _ _ _ _ _ _ _ _ H1 H2).
  - transitivity (rawFirstSeen <$> syncRows hr t1 p1 0 lrData); [|by rewrite Hrows'].
    apply syncRows_fmap_ext.
    intros j row r2 r1 Hj H2 H1. simpl in H1, H2.
    assert (Hin : r1 ∈ rows1).
    { rewrite Hrows'. apply elem_of_syncRows. exists j, row. done. }
    pose proof (syncRow_same_core _ _ _ _ _ _ _ _ _ H1 H2) as Hcore.
    unfold syncRow in H2. destruct (_ && _); [done|]. injection H2 as <-. simpl.
    assert (Hk : compositeKeyOf (computeThreadKey_ row) (hr + 1 + Z.of_nat j) = rawKey r1).
    { unfold rawKey. unfold rawCore in Hcore. simpl in Hcore.
      injection Hcore as _ <- _ <-. done. }
    rewrite Hk. unfold p2. rewrite loadPreviousRaw_lookup.
    by rewrite (lastWithKey_unique rawKey rows1 _ Hkeys1 Hin).
Qed.

End SyncTwice.

(** ** Trimming *)

Lemma append_nil_r s : s +:+ "" = s.
Proof. induction s as [|c s IH]; [done|]. by rewrite append_cons, IH. Qed.

Lemma trimEnd_idem s : trimEnd (trimEnd s) = trimEnd s.
Proof.
  induction s as [|c s IH]; simpl; [done|].
  destruct (trimEnd s) as [|d t] eqn:Ht.
  - destruct (isSpace c) eqn:Hc; simpl; [done|]. by rewrite Hc.
  - change (trimEnd (String c (String d t)))
      with (match trimEnd (String d t) with
            | EmptyString => if isSpace c then EmptyString else String c EmptyString
            | String e u => String c (String e u) end).
    by rewrite IH.
Qed.

Lemma trimStart_head s a r : trimStart s = String a r → isSpace a = false.
Proof.
  induction s as [|c s IH]; simpl; [done|].
  destruct (isSpace c) eqn:Hc; [done|]. by intros [= <- _].
Qed.

Lemma trimEnd_head s a r b u : s = String b u → trimEnd s = String a r → a = b.
Proof.
  intros ->. simpl. destruct (trimEnd u); [destruct (isSpace b)|]; congruence.
Qed.

Lemma trim_head s a r : trim s = String a r → isSpace a = false.
Proof.
  unfold trim. destruct (trimStart s) as [|b u] eqn:Hs; [done|].
  intros H. rewrite (trimEnd_head _ _ _ _ _ eq_refl H).
  by apply trimStart_head in Hs.
Qed.

Lemma trimEnd_app_prefix c y :
  trimEnd c = c → c ≠ "" → ∃ suffix, trimEnd (c +:+ y) = c +:+ suffix.
Proof.
  induction c as [|a r IH]; [done|]. intros Hfix _.
  rewrite append_cons. simpl in Hfix |- *.
  destruct r as [|b r'].
  - change ("" +:+ y) with y. destruct (trimEnd y) as [|e u].
    + simpl in Hfix. destruct (isSpace a); [done|]. by exists "".
    + by exists (String e u).
  - assert (Hr : trimEnd (String b r') = String b r').
    { destruct (trimEnd (String b r')) as [|e u]; [destruct (isSpace a)|]; congruence. }
    destruct (IH Hr ltac:(done)) as [s Hs]. rewrite Hs.
    rewrite append_cons. by exists s.
Qed.

(** The text read from a cell is a prefix of the text read after something
    was appended to it. *)
Lemma trim_app_prefix x y :
  trim x ≠ "" → ∃ suffix, trim (trim x +:+ y) = trim x +:+ suffix.
Proof.
  intros Hne. destruct (trim x) as [|a r] eqn:Hx; [done|].
  pose proof (trim_head _ _ _ Hx) as Ha.
  unfold trim at 1. rewrite append_cons. simpl. rewrite Ha.
  rewrite <- append_cons. apply trimEnd_app_prefix; [|done].
  rewrite <- Hx. unfold trim. apply trimEnd_idem.
Qed.

(** ** What a push cycle does to the LiveRamp tab *)

Lemma rowGrew_refl lr : rowGrew lr lr.
Proof. repeat split. exists "". by rewrite append_nil_r. Qed.

Lemma rowGrew_trans a b c : rowGrew a b → rowGrew b c → rowGrew a c.
Proof.
  intros (H1 & H2 & H3 & H4 & H5 & H6 & s & Hs) (G1 & G2 & G3 & G4 & G5 & G6 & u & Hu).
  repeat split; try congruence.
  exists (s +:+ u). by rewrite Hu, Hs, append_assoc.
Qed.

Lemma gridGrew_refl g : gridGrew g g.
Proof. split; [done|]. intros i lr H. exists lr. split; [done|apply rowGrew_refl]. Qed.

Lemma gridGrew_trans a b c : gridGrew a b → gridGrew b c → gridGrew a c.
Proof.
  intros [Hl1 H1] [Hl2 H2]. split; [congruence|].
  intros i lr Hi. destruct (H1 i lr Hi) as (lr' & Hi' & Hg).
  destruct (H2 i lr' Hi') as (lr'' & Hi'' & Hg'). exists lr''.
  split; [done|]. by eapply rowGrew_trans.
Qed.

Lemma setComment_grew lr t m :
  rowGrew lr (setComment (appendedText (lrComment lr) t m) lr).
Proof.
  repeat split. unfold commentText at 1. simpl.
  set (new := appendedText (lrComment lr) t m).
  assert (Hs : strOrEmpty (Text new) = new).
  { unfold strOrEmpty. simpl. by destruct new. }
  rewrite Hs. subst new. unfold appendedText. fold (commentText lr).
  destruct (isEmpty (commentText lr)) eqn:He; simpl.
  - apply isEmpty_true in He. rewrite He. eexists. reflexivity.
  - apply isEmpty_false in He. rewrite !append_assoc.
    unfold commentText in *. by apply trim_app_prefix.
Qed.

Lemma pushRow_grid_grew config t idx row st :
  gridGrew (psGrid st) (psGrid (pushRow config t idx row st)).
Proof.
  rewrite pushRow_spec.
  destruct (verdict config (length (psGrid st)) row); simpl; try apply gridGrew_refl.
  split; [apply length_alter|]. intros i lr Hi.
  destruct (decide (Z.to_nat (waSourceRow row - 1) = i)) as [<-|Hne].
  - rewrite list_lookup_alter_eq, Hi. simpl. eexists. split; [done|].
    apply setComment_grew.
  - rewrite list_lookup_alter_ne by done. exists lr. split; [done|apply rowGrew_refl].
Qed.

Lemma pushRows_grid_grew config t rows : ∀ idx st,
  gridGrew (psGrid st) (psGrid (pushRows config t idx rows st)).
Proof.
  induction rows as [|row rows IH]; intros idx st; simpl; [apply gridGrew_refl|].
  eapply gridGrew_trans; [apply pushRow_grid_grew|apply IH].
Qed.

Lemma pushRows_untouched config t rows i : ∀ idx st,
  (∀ row, row ∈ rows → verdict config (length (psGrid st)) row = Pushed →
          Z.to_nat (waSourceRow row - 1) ≠ i) →
  psGrid (pushRows config t idx rows st) !! i = psGrid st !! i.
Proof.
  induction rows as [|row rows IH]; intros idx st H; simpl; [done|].
  destruct (pushRow_grid_grew config t idx row st) as [Hlen _].
  rewrite IH.
  - rewrite pushRow_spec.
    destruct (verdict config (length (psGrid st)) row) eqn:Hv; simpl; try done.
    apply list_lookup_alter_ne, H; [apply list_elem_of_here|done].
  - rewrite Hlen. intros r Hr. apply H. by apply list_elem_of_further.
Qed.

Lemma pushRows_errors config t rows : ∀ idx st,
  errors (psCount (pushRows config t idx rows st))
  = errors (psCount st)
    ++ (rangeError <$> filter (λ row, verdict config (length (psGrid st)) row = Failed) rows).
Proof.
  induction rows as [|row rows IH]; intros idx st; simpl; [by rewrite app_nil_r|].
  destruct (pushRow_grid_grew config t idx row st) as [Hlen _].
  rewrite IH, Hlen, filter_cons, pushRow_spec.
  destruct (decide (verdict config (length (psGrid st)) row = Failed)) as [Hd|Hd].
  - rewrite Hd. simpl. by rewrite <- app_assoc.
  - destruct (verdict config (length (psGrid st)) row); simpl; done.
Qed.

Lemma verdict_Pushed config n row :
  verdict config n row = Pushed ↔ attempted config row && inGrid n row = true.
Proof.
  unfold verdict, attempted, inGrid. rewrite !normalize_trim.
  destruct (isEmpty _); simpl; [done|].
  destruct (eligible config row); simpl; [|done].
  destruct (String.eqb _ _); simpl; [done|].
  destruct (_ && _); done.
Qed.

Lemma verdict_Failed config n row :
  verdict config n row = Failed ↔ attempted config row && negb (inGrid n row) = true.
Proof.
  unfold verdict, attempted, inGrid. rewrite !normalize_trim.
  destruct (isEmpty _); simpl; [done|].
  destruct (eligible config row); simpl; [|done].
  destruct (String.eqb _ _); simpl; [done|].
  destruct (_ && _); done.
Qed.

Lemma verdict_SkippedNotReady config n row :
  verdict config n row = SkippedNotReady
  ↔ negb (isEmpty (trim (composedValue row))) && negb (eligible config row) = true.
Proof.
  unfold verdict.
  destruct (isEmpty _); simpl; [done|].
  destruct (eligible config row); simpl; [|done].
  destruct (String.eqb _ _); simpl; [done|].
  destruct (_ && _); done.
Qed.

(** X11. A push cycle that does not complete leaves every tab as it was:
    with the lock taken, writeback not enabled, no working rows, or the
    LiveRamp sheet or tab out of reach, nothing is written and nothing is
    logged. *)
Theorem push_without_completion_writes_nothing config stamp logStamp runId w w' outcome :
  pushUpdatesToLiveRamp config stamp logStamp runId w = (w', outcome) →
  (∀ c, outcome ≠ PushComplete c) →
  w' = w.
Proof.
  unfold pushUpdatesToLiveRamp. intros H Hc.
  destruct (lockBusy w); [congruence|].
  destruct (negb _); [congruence|].
  destruct (waSheet w) as [[|row rows]|]; [congruence| |congruence].
  destruct (source w); [congruence|congruence|].
  injection H as _ <-. exfalso. by eapply Hc.
Qed.

(** X12. A completed push cycle changes nothing of the LiveRamp tab but
    comment cells, and those only by appending: the tab keeps its number
    of rows, every row keeps its Date, Product, Workflow, Issue, Request
    and Resolved cells, and the text read from its comment cell (coerced
    and trimmed) is a prefix of the text read from it afterwards, also
    when several working rows point at the same LiveRamp row. [Raw_Alerts]
    is not touched. *)
Theorem push_only_appends_to_comments config stamp logStamp runId w w' c grid :
  pushUpdatesToLiveRamp config stamp logStamp runId w = (w', PushComplete c) →
  source w = Tab grid →
  rawSheet w' = rawSheet w
  ∧ ∃ grid', source w' = Tab grid'
      ∧ length grid' = length grid
      ∧ ∀ i lr, grid !! i = Some lr →
          ∃ lr', grid' !! i = Some lr'
            ∧ lrDate lr' = lrDate lr ∧ lrProduct lr' = lrProduct lr
            ∧ lrWorkflow lr' = lrWorkflow lr ∧ lrIssue lr' = lrIssue lr
            ∧ lrRequest lr' = lrRequest lr ∧ lrResolved lr' = lrResolved lr
            ∧ ∃ suffix, commentText lr' = commentText lr +:+ suffix.
Proof.
  intros Hpush Hsrc.
  apply push_complete_inv in Hpush
    as (grid' & waData & _ & _ & Hsrc' & _ & _ & Hc & Hw').
  rewrite Hsrc in Hsrc'. injection Hsrc' as <-.
  set (st := pushRows _ _ _ _ _) in *.
  destruct (logPush_fields logStamp runId c
              (setWaSheet (psWa st) (setSource (psGrid st) w))) as (_ & Hs & _ & Hr).
  rewrite <- Hw' in Hs, Hr. simpl in Hs, Hr. split; [done|].
  exists (psGrid st). split; [done|].
  apply (pushRows_grid_grew config (stamp +:+ " ET") waData 0
           {| psGrid := grid; psWa := waData; psCount := noCounters |}).
Qed.

(** X13. A LiveRamp row that no pushed working row points at comes out of
    a completed push cycle exactly as it went in. *)
Theorem push_leaves_other_rows config stamp logStamp runId w w' c grid waData i :
  pushUpdatesToLiveRamp config stamp logStamp runId w = (w', PushComplete c) →
  source w = Tab grid →
  waSheet w = Some waData →
  (∀ row, row ∈ waData → attempted config row && inGrid (length grid) row = true →
          waSourceRow row ≠ Z.of_nat i + 1) →
  ∃ grid', source w' = Tab grid' ∧ grid' !! i = grid !! i.
Proof.
  intros Hpush Hsrc Hwa Hfree.
  apply push_complete_inv in Hpush
    as (grid' & waData' & _ & _ & Hsrc' & Hwa' & _ & Hc & Hw').
  rewrite Hsrc in Hsrc'. injection Hsrc' as <-.
  rewrite Hwa in Hwa'. injection Hwa' as <-.
  set (st := pushRows _ _ _ _ _) in *.
  destruct (logPush_fields logStamp runId c
              (setWaSheet (psWa st) (setSource (psGrid st) w))) as (_ & Hs & _).
  rewrite <- Hw' in Hs. simpl in Hs.
  exists (psGrid st). split; [done|].
  apply (pushRows_untouched config (stamp +:+ " ET") waData i 0
           {| psGrid := grid; psWa := waData; psCount := noCounters |}).
  simpl. intros row Hrow Hv%verdict_Pushed.
  specialize (Hfree row Hrow Hv).
  unfold inGrid in Hv. apply andb_true_iff in Hv as [_ Hin].
  apply andb_true_iff in Hin as [Hlo%Z.leb_le _]. lia.
Qed.

(** ** What a push cycle does to the working table *)

(** X14. A completed push cycle keeps the number of working rows and
    updates each row on its own. A row that it wrote to LiveRamp gets the
    push time as LastPushedAt, the trimmed message as LastPushedText, and
    group Resolved when ReadyToResolve is ticked or the template is the
    resolution label; any other row is left as it was. No row has its
    Template, FreeText, composed cell, PushReady or ReadyToResolve tick,
    flag, notes, fingerprints or position changed: in particular PushReady
    stays ticked after a push. *)
Theorem push_bookkeeping config stamp logStamp runId w w' c grid waData i row :
  pushUpdatesToLiveRamp config stamp logStamp runId w = (w', PushComplete c) →
  source w = Tab grid →
  waSheet w = Some waData →
  waData !! i = Some row →
  ∃ out row',
    waSheet w' = Some out ∧ length out = length waData ∧ out !! i = Some row'
    ∧ (waLr row' = waLr row ∧ waTemplate row' = waTemplate row
       ∧ waFreeText row' = waFreeText row ∧ waComposed row' = waComposed row
       ∧ waPushReady row' = waPushReady row
       ∧ waReadyToResolve row' = waReadyToResolve row
       ∧ waLrUpdatedAfterRes row' = waLrUpdatedAfterRes row
       ∧ waNotes row' = waNotes row ∧ waThreadKey row' = waThreadKey row
       ∧ waRowHash row' = waRowHash row ∧ waSourceRow row' = waSourceRow row)
    ∧ (attempted config row && inGrid (length grid) row = true →
       waLastPushedAt row' = stamp +:+ " ET"
       ∧ waLastPushedText row' = trim (composedValue row)
       ∧ waGroup row'
         = if waReadyToResolve row
              || String.eqb (trim (strOrEmpty (waTemplate row))) (readyLabel config)
           then "Resolved" else waGroup row)
    ∧ (attempted config row && inGrid (length grid) row = false → row' = row).
Proof.
  intros Hpush Hsrc Hwa Hrow.
  apply push_complete_inv in Hpush
    as (grid' & waData' & _ & _ & Hsrc' & Hwa' & _ & Hc & Hw').
  rewrite Hsrc in Hsrc'. injection Hsrc' as <-.
  rewrite Hwa in Hwa'. injection Hwa' as <-.
  destruct (pushRows_spec config (stamp +:+ " ET") waData 0
              {| psGrid := grid; psWa := waData; psCount := noCounters |} [] eq_refl eq_refl)
    as (_ & Hout & _). simpl in Hout.
  set (st := pushRows _ _ _ _ _) in *.
  destruct (logPush_fields logStamp runId c
              (setWaSheet (psWa st) (setSource (psGrid st) w))) as (_ & _ & Hw & _).
  rewrite <- Hw' in Hw. simpl in Hw. rewrite Hout in Hw.
  eexists _, _. split; [exact Hw|]. split; [by rewrite length_fmap|].
  split; [by rewrite list_lookup_fmap, Hrow|].
  pose proof (verdict_Pushed config (length grid) row) as Hp.
  unfold rowAfterPush.
  destruct (verdict config (length grid) row) eqn:Hv;
    (split; [done|]); (split; [intros Ha|intros Ha]); try done;
    try (apply Hp in Ha; discriminate).
  all: try (simpl; by destruct (_ || _)).
  destruct Hp as [Hp _]. rewrite Hp in Ha by done. discriminate.
Qed.

(** X15. The counters of a completed push cycle, by cause: rows pushed are
    the attempted rows whose source position lies in the LiveRamp grid;
    rows skipped as not ready are the rows with a non-blank message,
    PushReady unticked and a template other than the resolution label; and
    the error list has one entry, in table order, for each attempted row
    whose source position lies outside the grid. *)
Theorem push_counters_by_cause config stamp logStamp runId w w' c grid waData :
  pushUpdatesToLiveRamp config stamp logStamp runId w = (w', PushComplete c) →
  source w = Tab grid →
  waSheet w = Some waData →
  rowsPushed c
  = length (filter (λ row, attempted config row && inGrid (length grid) row = true) waData)
  ∧ rowsSkippedNotReady c
    = length (filter (λ row, negb (isEmpty (trim (composedValue row)))
                             && negb (eligible config row) = true) waData)
  ∧ errors c
    = rangeError
        <$> filter (λ row, attempted config row && negb (inGrid (length grid) row) = true)
              waData.
Proof.
  intros Hpush Hsrc Hwa.
  apply push_complete_inv in Hpush
    as (grid' & waData' & _ & _ & Hsrc' & Hwa' & _ & Hc & _).
  rewrite Hsrc in Hsrc'. injection Hsrc' as <-.
  rewrite Hwa in Hwa'. injection Hwa' as <-.
  destruct (pushRows_spec config (stamp +:+ " ET") waData 0
              {| psGrid := grid; psWa := waData; psCount := noCounters |} [] eq_refl eq_refl)
    as (_ & _ & Hp & _ & Hnr & _). simpl in Hp, Hnr.
  pose proof (pushRows_errors config (stamp +:+ " ET") waData 0
                {| psGrid := grid; psWa := waData; psCount := noCounters |}) as He.
  simpl in He. rewrite <- Hc in Hp, Hnr, He.
  rewrite Hp, Hnr, He. unfold countVerdict.
  split; [|split]; f_equal; try f_equal; apply list_filter_iff; intros row.
  - apply verdict_Pushed.
  - apply verdict_SkippedNotReady.
  - apply verdict_Failed.
Qed.

(** ** Escaping for the email *)

Lemma substChars_app σ a b :
  substChars σ (a +:+ b) = substChars σ a +:+ substChars σ b.
Proof.
  induction a as [|c a IH]; [done|].
  rewrite append_cons. simpl. by rewrite IH, append_assoc.
Qed.

Lemma substChars_ext σ τ s : (∀ d, σ d = τ d) → substChars σ s = substChars τ s.
Proof. intros H. induction s as [|c s IH]; simpl; [done|]. by rewrite H, IH. Qed.

Lemma substChars_compose σ τ s :
  substChars τ (substChars σ s) = substChars (λ d, substChars τ (σ d)) s.
Proof.
  induction s as [|c s IH]; simpl; [done|]. by rewrite substChars_app, IH.
Qed.

Lemma replaceAll_subst c by_ s :
  replaceAll c by_ s
  = substChars (λ d, if Ascii.eqb d c then by_ else String d EmptyString) s.
Proof.
  induction s as [|d s IH]; simpl; [done|].
  rewrite IH. by destruct (Ascii.eqb d c).
Qed.

Lemma escapeText_one_pass s : escapeText s = substChars escapeChar s.
Proof.
  unfold escapeText. rewrite !replaceAll_subst, !substChars_compose.
  apply substChars_ext. intros d.
  destruct d as [[] [] [] [] [] [] [] []]; vm_compute; reflexivity.
Qed.

Lemma hasChar_app c a b : hasChar c (a +:+ b) = hasChar c a || hasChar c b.
Proof.
  induction a as [|d a IH]; [done|].
  rewrite append_cons. simpl. by rewrite IH, orb_assoc.
Qed.

Lemma hasChar_substChars c σ s :
  (∀ d, hasChar c (σ d) = false) → hasChar c (substChars σ s) = false.
Proof.
  intros H. induction s as [|d s IH]; simpl; [done|].
  by rewrite hasChar_app, H, IH.
Qed.

Lemma string_length_app a b :
  String.length (a +:+ b) = (String.length a + String.length b)%nat.
Proof. induction a as [|c a IH]; [done|]. rewrite append_cons. simpl. by rewrite IH. Qed.

Lemma escapeChar_length d : (1 ≤ String.length (escapeChar d))%nat.
Proof. destruct d as [[] [] [] [] [] [] [] []]; vm_compute; lia. Qed.

Lemma escapeChar_special_length d :
  hasSpecial (String d EmptyString) = true → (2 ≤ String.length (escapeChar d))%nat.
Proof. destruct d as [[] [] [] [] [] [] [] []]; vm_compute; (discriminate || lia). Qed.

Lemma escapeChar_special d :
  hasSpecial (String d EmptyString) = true → hasSpecial (escapeChar d) = true.
Proof. destruct d as [[] [] [] [] [] [] [] []]; vm_compute; (discriminate || reflexivity). Qed.

Lemma hasSpecial_app a b : hasSpecial (a +:+ b) = hasSpecial a || hasSpecial b.
Proof.
  induction a as [|d a IH]; [done|].
  rewrite append_cons. simpl. by rewrite IH, orb_assoc.
Qed.

Lemma escapeText_length s :
  (String.length s ≤ String.length (escapeText s))%nat
  ∧ (hasSpecial s = true → (String.length s < String.length (escapeText s))%nat).
Proof.
  rewrite escapeText_one_pass. induction s as [|d s [IH1 IH2]]; simpl; [done|].
  rewrite string_length_app. pose proof (escapeChar_length d) as H1.
  split; [lia|]. intros [Hd|Hs]%orb_true_iff.
  - assert (H2 : hasSpecial (String d "") = true) by (simpl; by rewrite Hd).
    apply escapeChar_special_length in H2. lia.
  - specialize (IH2 Hs). lia.
Qed.

Lemma escapeText_special s : hasSpecial s = true → hasSpecial (escapeText s) = true.
Proof.
  rewrite escapeText_one_pass. induction s as [|d s IH]; simpl; [done|].
  rewrite hasSpecial_app. intros [Hd|Hs]%orb_true_iff.
  - rewrite escapeChar_special; [done|]. simpl. by rewrite Hd.
  - rewrite IH by done. apply orb_true_r.
Qed.

Lemma escapeText_app a b : escapeText (a +:+ b) = escapeText a +:+ escapeText b.
Proof. rewrite !escapeText_one_pass. apply substChars_app. Qed.

Lemma escapeText_empty s : isEmpty (escapeText s) = isEmpty s.
Proof.
  destruct s as [|d s]; [done|]. simpl.
  pose proof (proj1 (escapeText_length (String d s))) as H.
  destruct (escapeText (String d s)); [simpl in H; lia|done].
Qed.

(** X16. The six chained replacements of [escapeHtml_] amount to one pass
    that replaces each of the characters ampersand, less-than,
    greater-than, double quote, apostrophe and newline by its entity (or
    by a line break) and keeps every other character: no replacement
    rewrites the output of an earlier one. So escaping distributes over
    concatenation, and the escaped text has no double quote, apostrophe or
    newline left. *)
Theorem escape_is_one_pass (a b : string) :
  escapeText a = substChars escapeChar a
  ∧ escapeText (a +:+ b) = escapeText a +:+ escapeText b
  ∧ hasChar "034" (escapeText a) = false
  ∧ hasChar "'" (escapeText a) = false
  ∧ hasChar "010" (escapeText a) = false.
Proof.
  split; [apply escapeText_one_pass|]. split; [apply escapeText_app|].
  rewrite escapeText_one_pass.
  repeat split; apply hasChar_substChars; intros d;
    destruct d as [[] [] [] [] [] [] [] []]; vm_compute; reflexivity.
Qed.

Lemma escapeHtml_strOrEmpty c : escapeHtml_ c = escapeText (strOrEmpty c).
Proof. unfold escapeHtml_, strOrEmpty. by destruct (truthy c). Qed.

(** X17. The Horizon Update cell of the email is escaped twice: it is the
    escaping of the escaped composition of Template and FreeText, each
    read as [String(cell || "")]. When that composition holds a character
    that escaping rewrites, the cell differs from the singly escaped text,
    so the reader sees entity names instead of the characters. *)
Theorem horizon_update_escaped_twice (row : WaRow) :
  let message := composeTexts (strOrEmpty (waTemplate row)) (strOrEmpty (waFreeText row)) in
  horizonUpdate row = escapeText (escapeText message)
  ∧ (hasSpecial message = true → horizonUpdate row ≠ escapeText message).
Proof.
  intros message.
  assert (H : horizonUpdate row = escapeText (escapeText message)).
  { subst message. unfold horizonUpdate. cbv zeta. rewrite !escapeHtml_strOrEmpty.
    generalize (strOrEmpty (waTemplate row)) (strOrEmpty (waFreeText row)).
    intros t f.
    assert (HT : ∀ x, strOrEmpty (Text x) = x) by (by intros []).
    rewrite HT. f_equal. unfold composeTexts. rewrite !escapeText_empty.
    destruct t as [|a t], f as [|b f]; simpl isEmpty; cbn [negb andb]; try done.
    rewrite !escapeText_app. replace (escapeText ", ") with ", "; [done|].
    vm_compute. reflexivity. }
  split; [exact H|]. intros Hs Heq. rewrite H in Heq.
  pose proof (proj2 (escapeText_length (escapeText message)) (escapeText_special _ Hs)) as Hl.
  rewrite Heq in Hl. lia.
Qed.

(** ** Email sections, counts and recipients *)

Lemma categorizeRow_spec acc row :
  let out := categorizeRow acc row in
  newRows out
  = newRows acc ++ filter (λ r, waGroup r = "New" ∧ waReadyToResolve r = false) [row]
  ∧ updatedRows out
    = updatedRows acc ++ filter (λ r, waGroup r = "Updated" ∧ waReadyToResolve r = false) [row]
  ∧ ongoingRows out
    = ongoingRows acc ++ filter (λ r, waGroup r = "Ongoing" ∧ waReadyToResolve r = false) [row].
Proof.
  unfold categorizeRow. rewrite !filter_cons, !filter_nil.
  destruct (String.eqb_spec (waGroup row) "Resolved");
    destruct (String.eqb_spec (waGroup row) "New");
    destruct (String.eqb_spec (waGroup row) "Updated");
    destruct (String.eqb_spec (waGroup row) "Ongoing");
    destruct (waReadyToResolve row); simpl;
    repeat case_decide; rewrite ?app_nil_r; try done; exfalso; intuition congruence.
Qed.

Lemma categorize_fold data : ∀ acc,
  let out := fold_left categorizeRow data acc in
  newRows out
  = newRows acc ++ filter (λ r, waGroup r = "New" ∧ waReadyToResolve r = false) data
  ∧ updatedRows out
    = updatedRows acc ++ filter (λ r, waGroup r = "Updated" ∧ waReadyToResolve r = false) data
  ∧ ongoingRows out
    = ongoingRows acc ++ filter (λ r, waGroup r = "Ongoing" ∧ waReadyToResolve r = false) data.
Proof.
  induction data as [|row data IH]; intros acc; simpl.
  - by rewrite !app_nil_r.
  - destruct (IH (categorizeRow acc row)) as (H1 & H2 & H3).
    destruct (categorizeRow_spec acc row) as (G1 & G2 & G3).
    rewrite H1, H2, H3, G1, G2, G3, <- !app_assoc.
    change (row :: data) with ([row] ++ data). by rewrite !filter_app.
Qed.

Lemma countRow_spec acc row :
  let out := countRow acc row in
  newCount out = (newCount acc + length (filter (λ r, waGroup r = "New") [row]))%nat
  ∧ updatedCount out
    = (updatedCount acc + length (filter (λ r, waGroup r = "Updated") [row]))%nat
  ∧ ongoingCount out
    = (ongoingCount acc + length (filter (λ r, waGroup r = "Ongoing") [row]))%nat.
Proof.
  unfold countRow. rewrite !filter_cons, !filter_nil.
  destruct (String.eqb_spec (waGroup row) "New");
    destruct (String.eqb_spec (waGroup row) "Updated");
    destruct (String.eqb_spec (waGroup row) "Ongoing"); simpl;
    repeat case_decide; simpl; try lia; exfalso; intuition congruence.
Qed.

Lemma count_fold data : ∀ acc,
  let out := fold_left countRow data acc in
  newCount out = (newCount acc + length (filter (λ r, waGroup r = "New") data))%nat
  ∧ updatedCount out
    = (updatedCount acc + length (filter (λ r, waGroup r = "Updated") data))%nat
  ∧ ongoingCount out
    = (ongoingCount acc + length (filter (λ r, waGroup r = "Ongoing") data))%nat.
Proof.
  induction data as [|row data IH]; intros acc; simpl; [lia|].
  destruct (IH (countRow acc row)) as (H1 & H2 & H3).
  destruct (countRow_spec acc row) as (G1 & G2 & G3).
  rewrite H1, H2, H3, G1, G2, G3.
  change (row :: data) with ([row] ++ data). rewrite !filter_app, !length_app. lia.
Qed.

Lemma filter_split_ready (g : string) (data : list WaRow) :
  length (filter (λ r, waGroup r = g) data)
  = (length (filter (λ r, waGroup r = g ∧ waReadyToResolve r = false) data)
     + length (filter (λ r, waGroup r = g ∧ waReadyToResolve r = true) data))%nat.
Proof.
  induction data as [|row data IH]; [done|].
  rewrite !filter_cons.
  destruct (waReadyToResolve row) eqn:Hr;
    repeat case_decide; simpl; try lia; exfalso; intuition congruence.
Qed.

(** X18. The three sections of the email list, in table order, the rows of
    group New, Updated and Ongoing whose ReadyToResolve box is unticked.
    The counts written to [Email_Log] go by group alone, so each count is
    the size of the section plus the number of rows of that group with
    ReadyToResolve ticked, which the email leaves out. *)
Theorem email_sections_and_counts (w : World) (data : list WaRow) :
  let sections := categorizeRows data in
  let counts := getEmailCounts_ (setWaSheet data w) in
  let hidden g := length (filter (λ r, waGroup r = g ∧ waReadyToResolve r = true) data) in
  newRows sections = filter (λ r, waGroup r = "New" ∧ waReadyToResolve r = false) data
  ∧ updatedRows sections
    = filter (λ r, waGroup r = "Updated" ∧ waReadyToResolve r = false) data
  ∧ ongoingRows sections
    = filter (λ r, waGroup r = "Ongoing" ∧ waReadyToResolve r = false) data
  ∧ newCount counts = (length (newRows sections) + hidden "New")%nat
  ∧ updatedCount counts = (length (updatedRows sections) + hidden "Updated")%nat
  ∧ ongoingCount counts = (length (ongoingRows sections) + hidden "Ongoing")%nat.
Proof.
  intros sections counts hidden.
  destruct (categorize_fold data {| newRows := []; updatedRows := []; ongoingRows := [] |})
    as (H1 & H2 & H3). simpl in H1, H2, H3. fold (categorizeRows data) in H1, H2, H3.
  fold sections in H1, H2, H3.
  assert (Hc : newCount counts = length (filter (λ r, waGroup r = "New") data)
               ∧ updatedCount counts = length (filter (λ r, waGroup r = "Updated") data)
               ∧ ongoingCount counts = length (filter (λ r, waGroup r = "Ongoing") data)).
  { subst counts. unfold getEmailCounts_. simpl. destruct data as [|row data]; [done|].
    apply (count_fold (row :: data)
             {| newCount := 0; updatedCount := 0; ongoingCount := 0 |}). }
  destruct Hc as (C1 & C2 & C3).
  rewrite H1, H2, H3, C1, C2, C3. subst hidden. simpl.
  repeat split; apply filter_split_ready.
Qed.

Lemma trim_idem s : trim (trim s) = trim s.
Proof.
  destruct (trim s) as [|a r] eqn:Hs; [done|].
  pose proof (trim_head _ _ _ Hs) as Ha.
  unfold trim at 1. simpl. rewrite Ha. rewrite <- Hs. unfold trim. apply trimEnd_idem.
Qed.

Lemma recipients_fold data : ∀ acc e,
  e ∈ fold_left recipientStep data acc ↔
  e ∈ acc ∨ ∃ row, row ∈ data ∧ recActive row = Bool true
                   ∧ e = trim (strOrEmpty (recEmail row)) ∧ e ≠ "".
Proof.
  induction data as [|row data IH]; intros acc e; simpl.
  - split; [by left|]. intros [H|(r & Hr & _)]; [done|]. by apply elem_of_nil in Hr.
  - rewrite IH. unfold recipientStep.
    destruct (isEmpty (trim (strOrEmpty (recEmail row)))) eqn:He; simpl.
    + apply isEmpty_true in He. split.
      * intros [H|(r & Hr & Hx)]; [by left|]. right. exists r.
        split; [by apply list_elem_of_further|done].
      * intros [H|(r & Hr & Ha & -> & Hne)]; [by left|].
        apply elem_of_cons in Hr as [->|Hr]; [done|]. right. eauto.
    + apply isEmpty_false in He.
      destruct (recActive row) as [| |[]|] eqn:Hact; simpl.
      all: try (split;
        [intros [H|(r & Hr & Hx)]; [by left|]; right; exists r;
           split; [by apply list_elem_of_further|done]
        |intros [H|(r & Hr & Ha & Hx)]; [by left|];
           apply elem_of_cons in Hr as [->|Hr]; [congruence|]; right; eauto]).
      split.
      * rewrite elem_of_app, list_elem_of_singleton.
        intros [[H| ->]|(r & Hr & Hx)]; [by left| |].
        -- right. exists row. split; [apply list_elem_of_here|done].
        -- right. exists r. split; [by apply list_elem_of_further|done].
      * rewrite elem_of_app, list_elem_of_singleton.
        intros [H|(r & Hr & Ha & -> & Hne)]; [by left; left|].
        apply elem_of_cons in Hr as [->|Hr]; [by left; right|]. right. eauto.
Qed.

(** X19. The addresses that [getActiveRecipients_] returns are exactly the
    trimmed, non-empty email cells of the rows whose Active cell is the
    boolean true; each returned address has no surrounding white space;
    a missing or empty tab gives no address. *)
Theorem active_recipients (sheet : option (list RecipientRow)) (e : string) :
  (e ∈ getActiveRecipients_ sheet ↔
   ∃ data row, sheet = Some data ∧ row ∈ data ∧ recActive row = Bool true
               ∧ e = trim (strOrEmpty (recEmail row)) ∧ e ≠ "")
  ∧ (e ∈ getActiveRecipients_ sheet → trim e = e ∧ e ≠ "").
Proof.
  assert (H : e ∈ getActiveRecipients_ sheet ↔
              ∃ data row, sheet = Some data ∧ row ∈ data ∧ recActive row = Bool true
                          ∧ e = trim (strOrEmpty (recEmail row)) ∧ e ≠ "").
  { destruct sheet as [[|row0 data]|]; simpl.
    - split; [by intros ?%elem_of_nil|]. intros (d & r & [= <-] & Hr & _).
      by apply elem_of_nil in Hr.
    - change (fold_left recipientStep data (recipientStep [] row0))
        with (fold_left recipientStep (row0 :: data) []).
      rewrite recipients_fold. split.
      + intros [H|(r & Hr & Hx)]; [by apply elem_of_nil in H|]. eauto.
      + intros (d & r & [= <-] & Hr & Hx). right. eauto.
    - split; [by intros ?%elem_of_nil|]. by intros (d & r & [=] & _). }
  split; [exact H|]. intros (d & r & _ & _ & _ & -> & Hne)%H.
  split; [apply trim_idem|done].
Qed.

(** ** Config tab *)

Lemma config_fold (data : list (cell * cell)) (k : string) :
  fold_left configStep data ∅ !! k
  = if decide (k = "__proto__") then None
    else snd <$> last (filter (λ row, truthy (fst row) = true ∧ toStr (fst row) = k) data).
Proof.
  induction data as [|x data IH] using rev_ind; [by destruct (decide _)|].
  rewrite fold_left_app. simpl. rewrite filter_app, filter_cons, filter_nil.
  unfold configStep at 1. destruct (truthy (fst x)) eqn:Ht.
  - destruct (String.eqb_spec (toStr (fst x)) "__proto__") as [Hp|Hp].
    + rewrite IH. destruct (decide (k = "__proto__")) as [|Hk]; [done|].
      rewrite decide_False by (intros [_ ?]; congruence).
      by rewrite app_nil_r.
    + destruct (decide (toStr (fst x) = k)) as [<-|Hne].
      * rewrite lookup_insert_eq, decide_False by done.
        rewrite decide_True by done. by rewrite last_snoc.
      * rewrite lookup_insert_ne by done. rewrite IH.
        rewrite (decide_False (P := _ ∧ _)) by (intros [_ ?]; congruence).
        by rewrite app_nil_r.
  - rewrite IH. rewrite (decide_False (P := _ ∧ _)) by (intros [? _]; congruence).
    by rewrite app_nil_r.
Qed.

(** X20. [getConfig_] fails when the [Config] tab is missing or has no
    data row; otherwise the own entries of the object it returns are: for
    a key other than [__proto__], the value cell of the last data row
    whose key cell is truthy and reads as that key, and no entry when no
    such row exists; for [__proto__], no entry, whatever the rows hold. *)
Theorem config_lookup (sheet : option (list (cell * cell))) :
  match sheet with
  | None => getConfig_ sheet = inl ConfigTabNotFound
  | Some [] => getConfig_ sheet = inl ConfigRangeEmpty
  | Some data =>
      ∃ config, getConfig_ sheet = inr config
        ∧ ∀ k, config !! k
               = if decide (k = "__proto__") then None
                 else snd <$> last (filter (λ row, truthy (fst row) = true
                                                   ∧ toStr (fst row) = k) data)
  end.
Proof.
  destruct sheet as [[|row data]|]; [done| |done].
  eexists. split; [reflexivity|]. intros k. apply (config_fold (row :: data)).
Qed.

(** ** The hash *)

Lemma toInt32_range z : - 2 ^ 31 ≤ toInt32 z < 2 ^ 31.
Proof.
  unfold toInt32. pose proof (Z.mod_pos_bound (z + 2 ^ 31) (2 ^ 32) ltac:(lia)). lia.
Qed.

Lemma toInt32_small z : - 2 ^ 31 ≤ z < 2 ^ 31 → toInt32 z = z.
Proof. intros H. unfold toInt32. rewrite Z.mod_small; lia. Qed.

Lemma toInt32_wraps z : ∃ k, toInt32 z = z + 2 ^ 32 * k.
Proof.
  exists (- ((z + 2 ^ 31) / 2 ^ 32)). unfold toInt32.
  rewrite Z.mod_eq by lia. lia.
Qed.

Lemma toInt32_congr x y k : x = y + 2 ^ 32 * k → toInt32 x = toInt32 y.
Proof.
  intros ->. unfold toInt32. f_equal.
  replace (y + 2 ^ 32 * k + 2 ^ 31) with (y + 2 ^ 31 + k * 2 ^ 32) by lia.
  apply Z_mod_plus_full.
Qed.

Lemma simpleHash_step_spec h c : simpleHash_step h c = toInt32 (31 * h + charCode c).
Proof.
  unfold simpleHash_step, band, shl. rewrite Z.land_diag.
  rewrite Z.shiftl_mul_pow2 by lia.
  destruct (toInt32_wraps h) as [k1 H1]. rewrite H1.
  destruct (toInt32_wraps ((h + 2 ^ 32 * k1) * 2 ^ 5)) as [k2 H2]. rewrite H2.
  apply (toInt32_congr _ _ (32 * k1 + k2)). lia.
Qed.

Lemma simpleHash_loop_spec str : ∀ h h' k,
  toInt32 h = h → h = h' + 2 ^ 32 * k →
  simpleHash_loop h str = toInt32 (polyHash h' str).
Proof.
  induction str as [|c str IH]; intros h h' k Hfix Hk; simpl.
  - rewrite <- Hfix. by apply (toInt32_congr _ _ k).
  - rewrite simpleHash_step_spec.
    destruct (toInt32_wraps (31 * h + charCode c)) as [k' Hk'].
    apply (IH _ _ (31 * k + k')).
    + apply toInt32_small, toInt32_range.
    + rewrite Hk'. lia.
Qed.

(** X21. [simpleHash_] is the 31-multiplier polynomial hash wrapped to 32
    bits: each step of the loop turns [hash] into [31 * hash + char]
    wrapped to a signed 32-bit integer, the running value is the wrapped
    value of the unbounded polynomial, and it never leaves the signed
    32-bit range. *)
Theorem simpleHash_is_wrapped_polynomial (str : string) (h : Z) (c : ascii) :
  simpleHash_step h c = toInt32 (31 * h + charCode c)
  ∧ simpleHash_loop 0 str = toInt32 (polyHash 0 str)
  ∧ - 2 ^ 31 ≤ simpleHash_loop 0 str < 2 ^ 31.
Proof.
  split; [apply simpleHash_step_spec|].
  assert (H : simpleHash_loop 0 str = toInt32 (polyHash 0 str)).
  { apply (simpleHash_loop_spec str 0 0 0); [done|lia]. }
  split; [exact H|]. rewrite H. apply toInt32_range.
Qed.

Lemma digit36_value d : 0 ≤ d < 36 → digitValue (digit36 d) = d ∧ isDigit36 (digit36 d) = true.
Proof.
  intros Hd. assert (Hk : ∃ k, (k < 36)%nat ∧ d = Z.of_nat k).
  { exists (Z.to_nat d). lia. }
  destruct Hk as (k & Hk & ->).
  do 36 (destruct k as [|k]; [vm_compute; done|]). lia.
Qed.

Lemma toString36_digits_decode fuel : ∀ n acc,
  0 ≤ n < 36 ^ Z.of_nat fuel →
  fromString36 0 (toString36_digits fuel n acc) = fromString36 n acc.
Proof.
  induction fuel as [|fuel IH]; intros n acc Hn.
  - simpl in *. by replace n with 0 by lia.
  - simpl toString36_digits.
    pose proof (Z.mod_pos_bound n 36 ltac:(lia)) as Hm.
    destruct (digit36_value (n mod 36) Hm) as [Hv _].
    destruct (n / 36 =? 0) eqn:Hq.
    + apply Z.eqb_eq in Hq. simpl. rewrite Hv. f_equal.
      pose proof (Z.div_mod n 36 ltac:(lia)). lia.
    + rewrite IH.
      * simpl. rewrite Hv. f_equal. pose proof (Z.div_mod n 36 ltac:(lia)). lia.
      * split; [apply Z.div_pos; lia|].
        apply Z.div_lt_upper_bound; [lia|].
        rewrite Nat2Z.inj_succ, Z.pow_succ_r in Hn by lia. lia.
Qed.

Lemma toString36_decode n : 0 ≤ n → fromString36 0 (toString36 n) = n.
Proof.
  intros Hn. unfold toString36. rewrite toString36_digits_decode; [done|].
  split; [done|]. rewrite Nat2Z.inj_succ, Z2Nat.id by apply Z.log2_nonneg.
  destruct (Z.eq_dec n 0) as [->|Hne]; [done|].
  pose proof (Z.log2_spec n ltac:(lia)) as [_ Hlt].
  eapply Z.lt_le_trans; [exact Hlt|].
  apply Z.pow_le_mono_l. pose proof (Z.log2_nonneg n). lia.
Qed.

Lemma toString36_digits_chars fuel : ∀ n acc,
  0 ≤ n → forallChars isDigit36 acc = true →
  forallChars isDigit36 (toString36_digits fuel n acc) = true.
Proof.
  induction fuel as [|fuel IH]; intros n acc Hn Hacc; simpl; [done|].
  pose proof (Z.mod_pos_bound n 36 ltac:(lia)) as Hm.
  destruct (digit36_value (n mod 36) Hm) as [_ Hd].
  assert (H : forallChars isDigit36 (String (digit36 (n mod 36)) acc) = true).
  { simpl. by rewrite Hd, Hacc. }
  destruct (n / 36 =? 0); [done|]. apply IH; [|done]. apply Z.div_pos; lia.
Qed.

Lemma toString36_digits_ge fuel : ∀ n acc,
  (String.length acc ≤ String.length (toString36_digits fuel n acc))%nat.
Proof.
  induction fuel as [|fuel IH]; intros n acc; simpl; [lia|].
  destruct (n / 36 =? 0); simpl; [lia|].
  specialize (IH (n / 36) (String (digit36 (n mod 36)) acc)). simpl in IH. lia.
Qed.

Lemma toString36_digits_length fuel : ∀ n acc k,
  0 ≤ n < 36 ^ Z.of_nat k → (1 ≤ k)%nat →
  (String.length acc ≤ String.length (toString36_digits fuel n acc)
   ≤ String.length acc + k)%nat.
Proof.
  induction fuel as [|fuel IH]; intros n acc k Hn Hk; simpl; [lia|].
  destruct (n / 36 =? 0) eqn:Hq; simpl; [lia|].
  apply Z.eqb_neq in Hq.
  assert (Hk2 : (2 ≤ k)%nat).
  { destruct k as [|[|k]]; [lia| |lia]. simpl in Hn.
    exfalso. apply Hq. apply Z.div_small. lia. }
  destruct k as [|k]; [lia|].
  specialize (IH (n / 36) (String (digit36 (n mod 36)) acc) k).
  simpl in IH. rewrite Nat2Z.inj_succ, Z.pow_succ_r in Hn by lia.
  assert (H36 : 0 ≤ n / 36 < 36 ^ Z.of_nat k).
  { split; [apply Z.div_pos; lia|]. apply Z.div_lt_upper_bound; lia. }
  specialize (IH H36 ltac:(lia)).
  revert IH. generalize (String.length (toString36_digits fuel (n / 36)
                                          (String (digit36 (n mod 36)) acc))).
  intros L IH. clear - IH. lia.
Qed.

(** X22. The token that [simpleHash_] returns is one to seven characters
    long, all of them digits or lower-case letters, and read as a base-36
    number it is the absolute value of the 32-bit hash. So two strings get
    the same token exactly when their 32-bit hashes are equal or opposite:
    [Math.abs] folds a hash and its negative together. *)
Theorem simpleHash_token (a b : string) :
  (1 ≤ String.length (simpleHash_ a) ≤ 7)%nat
  ∧ forallChars isDigit36 (simpleHash_ a) = true
  ∧ fromString36 0 (simpleHash_ a) = Z.abs (simpleHash_loop 0 a)
  ∧ (simpleHash_ a = simpleHash_ b
     ↔ Z.abs (simpleHash_loop 0 a) = Z.abs (simpleHash_loop 0 b)).
Proof.
  assert (Hdec : ∀ s, fromString36 0 (simpleHash_ s) = Z.abs (simpleHash_loop 0 s)).
  { intros s. apply toString36_decode. lia. }
  assert (Hr : - 2 ^ 31 ≤ simpleHash_loop 0 a < 2 ^ 31).
  { rewrite (simpleHash_loop_spec a 0 0 0) by (done || lia). apply toInt32_range. }
  split; [|split; [|split; [apply Hdec|]]].
  - unfold simpleHash_, toString36.
    set (n := Z.abs (simpleHash_loop 0 a)).
    set (fuel := Z.to_nat (Z.log2 n)).
    assert (Hn : 0 ≤ n < 36 ^ Z.of_nat 7) by (subst n; simpl; lia).
    pose proof (toString36_digits_length (S fuel) n "" 7 Hn ltac:(lia)) as [_ Hl].
    change (String.length "") with 0%nat in Hl. split; [|exact Hl].
    simpl toString36_digits. destruct (n / 36 =? 0); [simpl; lia|].
    pose proof (toString36_digits_ge fuel (n / 36) (String (digit36 (n mod 36)) "")) as Hl2.
    simpl String.length in Hl2. exact Hl2.
  - apply toString36_digits_chars; [lia|done].
  - split.
    + intros H. by rewrite <- !Hdec, H.
    + intros H. unfold simpleHash_. by rewrite H.
Qed.

Lemma strOrEmpty_Text s : strOrEmpty (Text s) = s.
Proof. unfold strOrEmpty. simpl. by destruct s. Qed.

(** X23. The bar that joins the four identity fields is not escaped, so a
    bar inside a field is read as a field boundary: moving the text after
    a bar from the end of Product to the front of Workflow gives the same
    thread key. Two rows that differ in Product and Workflow can thus be
    taken for the same issue whatever the hash. *)
Theorem threadKey_bar_ambiguity (a b c : string) (date issue request comment resolved : cell) :
  computeThreadKey_
    (mkLrRow date (Text (a +:+ "|" +:+ b)) (Text c) issue request comment resolved)
  = computeThreadKey_
      (mkLrRow date (Text a) (Text (b +:+ "|" +:+ c)) issue request comment resolved).
Proof.
  unfold computeThreadKey_. simpl. rewrite !strOrEmpty_Text.
  by rewrite !append_assoc.
Qed.

(** ** The further properties at concrete tables *)

Lemma new_record_defaults_witness :
  waGroup Samples.firstRow = "New"
  ∧ waTemplate Samples.firstRow = Text "" ∧ waFreeText Samples.firstRow = Text ""
  ∧ composedValue Samples.firstRow = ""
  ∧ waPushReady Samples.firstRow = false
  ∧ waLastPushedAt Samples.firstRow = "" ∧ waLastPushedText Samples.firstRow = ""
  ∧ waReadyToResolve Samples.firstRow = false
  ∧ waLrUpdatedAfterRes Samples.firstRow = false
  ∧ waNotes Samples.firstRow = Text "".
Proof.
  apply (new_record_defaults Scenario.config "02/02/2026 06:00:00" Scenario.world0
           Scenario.afterSync1 [] [Samples.firstRow] Samples.firstRow);
    try (vm_compute; reflexivity).
  constructor.
Defined.

Lemma group_transitions_witness :
  waGroup Tables.resyncedRow = "Updated"
  ∧ waLrUpdatedAfterRes Tables.resyncedRow = false.
Proof.
  refine (proj2 (group_transitions Scenario.config Tables.syncTime2
                   Scenario.afterPush Scenario.afterSync2 [Tables.pushedRow]
                   [Tables.resyncedRow] Tables.resyncedRow Tables.pushedRow _ _ _ _ _) _ _);
    try (vm_compute; reflexivity); try (vm_compute; discriminate).
  constructor.
Defined.

Lemma written_rows_mirror_the_fetch_witness :
  waThreadKey Tables.resyncedRow = computeThreadKey_ (waLr Tables.resyncedRow)
  ∧ waRowHash Tables.resyncedRow = computeRowHash_ (waLr Tables.resyncedRow).
Proof.
  destruct (written_rows_mirror_the_fetch Scenario.config Tables.syncTime2
              Scenario.afterPush Scenario.afterSync2 Tables.pushedGrid
              [Tables.resyncedRow] Tables.resyncedRow) as (_ & Ht & Hh & _);
    try (vm_compute; reflexivity); [constructor|].
  split; [exact Ht|exact Hh].
Defined.

Lemma first_seen_carried_forward_witness :
  rawSyncedAt Samples.rawRow2 = Tables.syncTime2
  ∧ rawLastSeen Samples.rawRow2 = Tables.syncTime2
  ∧ rawFirstSeen Samples.rawRow2 = "02/02/2026 06:00:00".
Proof.
  apply (first_seen_carried_forward Scenario.config Tables.syncTime2
           Scenario.afterPush Scenario.afterSync2 [Samples.rawRow1]
           [Samples.rawRow2] Samples.rawRow2);
    try (vm_compute; reflexivity).
  constructor.
Defined.

Lemma sync_keys_unique_witness :
  ∃ rows out,
    rawSheet (fst (syncFromLiveRamp Scenario.config Tables.syncTime2 Samples.twoRowWorld))
    = Some rows
    ∧ waSheet (fst (syncFromLiveRamp Scenario.config Tables.syncTime2 Samples.twoRowWorld))
      = Some out
    ∧ length out = 2%nat
    ∧ NoDup (rawSourceRow <$> rows) ∧ NoDup (rawKey <$> rows)
    ∧ NoDup (waSourceRow <$> out) ∧ NoDup (waKey <$> out).
Proof.
  eexists _, _. split; [vm_compute; reflexivity|]. split; [vm_compute; reflexivity|].
  split; [reflexivity|].
  eapply (sync_keys_unique Scenario.config Tables.syncTime2 Samples.twoRowWorld
            (fst (syncFromLiveRamp Scenario.config Tables.syncTime2 Samples.twoRowWorld)));
    vm_compute; reflexivity.
Defined.

Lemma sync_row_count_witness :
  ∃ rows out,
    rawSheet (fst (syncFromLiveRamp Scenario.config Tables.syncTime2 Samples.twoRowWorld))
    = Some rows
    ∧ waSheet (fst (syncFromLiveRamp Scenario.config Tables.syncTime2 Samples.twoRowWorld))
      = Some out
    ∧ length out = length rows
    ∧ length rows = 2%nat.
Proof.
  eexists _, _. split; [vm_compute; reflexivity|]. split; [vm_compute; reflexivity|].
  eapply (sync_row_count Scenario.config Tables.syncTime2 Samples.twoRowWorld
            (fst (syncFromLiveRamp Scenario.config Tables.syncTime2 Samples.twoRowWorld))
            [Scenario.headerCells; Scenario.alert; Tables.dateOnly]);
    vm_compute; reflexivity.
Defined.

Lemma sync_failure_leaves_tables_witness :
  fst (syncFromLiveRamp Scenario.config Tables.syncTime2 Samples.lockedWorld)
  = Samples.lockedWorld.
Proof.
  apply (sync_failure_leaves_tables Scenario.config Tables.syncTime2 Samples.lockedWorld
           _ (SyncThrew AnotherSyncRunning)); [vm_compute; reflexivity|discriminate|discriminate].
Defined.

Lemma sync_partial_write_witness :
  waSheet (fst (syncFromLiveRamp Scenario.config Tables.syncTime2 Samples.noWorkingTab)) = None
  ∧ ∃ grid rawData,
      source Samples.noWorkingTab = Tab grid ∧ rawSheet Samples.noWorkingTab = Some rawData
      ∧ rawSheet (fst (syncFromLiveRamp Scenario.config Tables.syncTime2 Samples.noWorkingTab))
        = Some (syncRows (headerRowOf Scenario.config) Tables.syncTime2
                  (loadPreviousRawData_ rawData) 0
                  (readLrData (headerRowOf Scenario.config) grid)).
Proof.
  apply (sync_partial_write Scenario.config Tables.syncTime2 Samples.noWorkingTab).
  vm_compute. reflexivity.
Defined.

Lemma sync_twice_same_tables_witness :
  ∃ w2 rows2 out2,
    syncFromLiveRamp Scenario.config Tables.syncTime2 Scenario.afterSync1 = (w2, SyncComplete)
    ∧ rawSheet w2 = Some rows2 ∧ waSheet w2 = Some out2
    ∧ out2 ≡ₚ [Samples.firstRow]
    ∧ rawCore <$> rows2 = rawCore <$> [Samples.rawRow1]
    ∧ rawFirstSeen <$> rows2 = rawFirstSeen <$> [Samples.rawRow1].
Proof.
  apply (sync_twice_same_tables Scenario.config "02/02/2026 06:00:00" Tables.syncTime2
           Scenario.world0 Scenario.afterSync1 [Samples.rawRow1] [Samples.firstRow]);
    vm_compute; reflexivity.
Defined.

Lemma push_without_completion_writes_nothing_witness :
  fst (pushUpdatesToLiveRamp Samples.configOff "T" "L" "R" Samples.pushWorld)
  = Samples.pushWorld.
Proof.
  apply (push_without_completion_writes_nothing Samples.configOff "T" "L" "R"
           Samples.pushWorld _ WritebackDisabled); [vm_compute; reflexivity|discriminate].
Defined.

Lemma push_only_appends_to_comments_witness :
  rawSheet Samples.afterPushWorld = rawSheet Samples.pushWorld
  ∧ ∃ grid', source Samples.afterPushWorld = Tab grid'
      ∧ length grid' = length Tables.pushedGrid
      ∧ ∀ i lr, Tables.pushedGrid !! i = Some lr →
          ∃ lr', grid' !! i = Some lr'
            ∧ lrDate lr' = lrDate lr ∧ lrProduct lr' = lrProduct lr
            ∧ lrWorkflow lr' = lrWorkflow lr ∧ lrIssue lr' = lrIssue lr
            ∧ lrRequest lr' = lrRequest lr ∧ lrResolved lr' = lrResolved lr
            ∧ ∃ suffix, commentText lr' = commentText lr +:+ suffix.
Proof.
  apply (push_only_appends_to_comments Scenario.config "T" "L" "R" Samples.pushWorld
           Samples.afterPushWorld Samples.pushCounters Tables.pushedGrid);
    vm_compute; reflexivity.
Defined.

Lemma push_leaves_other_rows_witness :
  ∃ grid', source Samples.afterPushWorld = Tab grid'
           ∧ grid' !! 0%nat = Tables.pushedGrid !! 0%nat.
Proof.
  apply (push_leaves_other_rows Scenario.config "T" "L" "R" Samples.pushWorld
           Samples.afterPushWorld Samples.pushCounters Tables.pushedGrid
           [Tables.twinRow; Tables.pushedRow] 0);
    try (vm_compute; reflexivity).
  intros row Hrow _.
  apply elem_of_cons in Hrow as [->|Hrow]; [vm_compute; discriminate|].
  apply elem_of_cons in Hrow as [->|Hrow]; [vm_compute; discriminate|].
  by apply elem_of_nil in Hrow.
Defined.

Lemma push_bookkeeping_witness :
  ∃ out row',
    waSheet Samples.afterPushWorld = Some out ∧ out !! 0%nat = Some row'
    ∧ waPushReady row' = true
    ∧ waLastPushedAt row' = "T ET" ∧ waLastPushedText row' = "Waiting on client".
Proof.
  destruct (push_bookkeeping Scenario.config "T" "L" "R" Samples.pushWorld
              Samples.afterPushWorld Samples.pushCounters Tables.pushedGrid
              [Tables.twinRow; Tables.pushedRow] 0 Tables.twinRow)
    as (out & row' & Hout & _ & Hrow & Hkeep & Hpushed & _);
    try (vm_compute; reflexivity).
  exists out, row'. split; [exact Hout|]. split; [exact Hrow|].
  destruct Hkeep as (_ & _ & _ & _ & Hpr & _).
  destruct (Hpushed eq_refl) as (Hat & Htext & _).
  split; [exact Hpr|]. split; [exact Hat|exact Htext].
Defined.

Lemma push_counters_by_cause_witness :
  rowsPushed Samples.pushCounters = 1%nat
  ∧ rowsSkippedNotReady Samples.pushCounters = 0%nat
  ∧ errors Samples.pushCounters = [].
Proof.
  apply (push_counters_by_cause Scenario.config "T" "L" "R" Samples.pushWorld
           Samples.afterPushWorld Samples.pushCounters Tables.pushedGrid
           [Tables.twinRow; Tables.pushedRow]);
    vm_compute; reflexivity.
Defined.

(** ** Sync and push together *)

Lemma readLrData_lookup hr grid idx row :
  readLrData hr grid !! idx = Some row → grid !! (Z.to_nat hr + idx)%nat = Some row.
Proof.
  unfold readLrData. intros H.
  apply lookup_take_Some in H as [H _]. by rewrite lookup_drop in H.
Qed.

Section SyncThenPush.
Context {S : ArraySort}.

Lemma sync_complete_header config syncTime w w' grid :
  syncFromLiveRamp config syncTime w = (w', SyncComplete) →
  source w = Tab grid →
  1 ≤ headerRowOf config ≤ Z.of_nat (length grid).
Proof.
  unfold syncFromLiveRamp. intros H Hsrc. rewrite Hsrc in H.
  destruct (lockBusy w); [done|].
  destruct (isEmpty _); [done|].
  destruct (negb _); [done|].
  destruct (_ || _) eqn:Hr; [done|].
  apply orb_false_elim in Hr as [H1%Z.ltb_ge H2%Z.ltb_ge]. lia.
Qed.

Lemma sync_positions config syncTime w w' grid out o :
  syncFromLiveRamp config syncTime w = (w', SyncComplete) →
  source w = Tab grid →
  waSheet w' = Some out →
  o ∈ out →
  1 ≤ waSourceRow o ≤ Z.of_nat (length grid)
  ∧ grid !! Z.to_nat (waSourceRow o - 1) = Some (waLr o).
Proof.
  intros Hsync Hsrc Hout Ho.
  pose proof (sync_complete_header _ _ _ _ _ Hsync Hsrc) as Hhr.
  apply sync_complete_inv in Hsync
    as (grid' & rawData & waData & Hsrc' & _ & _ & _ & Hwa & _).
  rewrite Hsrc in Hsrc'. injection Hsrc' as <-.
  rewrite Hwa in Hout. injection Hout as <-.
  apply elem_of_updateWorkingAlerts in Ho as (raw & Hel & ->).
  destruct (reconciled_keys (loadExistingWorkingAlerts_ waData) raw)
    as (_ & Hpos & _ & Hlr & _). cbv zeta in Hpos, Hlr. rewrite Hpos, Hlr.
  apply elem_of_syncRows in Hel as (idx & row & Hl & Hs).
  apply syncRow_Some in Hs as (_ & -> & -> & _).
  apply readLrData_lookup in Hl. pose proof (lookup_lt_Some _ _ _ Hl) as Hlt.
  split; [lia|]. rewrite <- Hl. f_equal. lia.
Qed.

(** X24. The source position that a sync stores with a working row is the
    row of the LiveRamp tab that the working row mirrors: the cell that the
    push engine addresses with it exists, and it belongs to the row with
    the working row's seven cells. *)
Theorem sync_positions_point_home config syncTime w w' grid out o :
  syncFromLiveRamp config syncTime w = (w', SyncComplete) →
  source w = Tab grid →
  waSheet w' = Some out →
  o ∈ out →
  ∃ i, lrCellIndex grid (waSourceRow o) = Some i ∧ grid !! i = Some (waLr o).
Proof.
  intros Hsync Hsrc Hout Ho.
  destruct (sync_positions _ _ _ _ _ _ _ Hsync Hsrc Hout Ho) as [Hr Hl].
  exists (Z.to_nat (waSourceRow o - 1)). split; [|done].
  unfold lrCellIndex.
  destruct (Z.leb_spec 1 (waSourceRow o)); [|lia].
  destruct (Z.leb_spec (waSourceRow o) (Z.of_nat (length grid))); [done|lia].
Qed.

(** X25. A push cycle run on the tables of a completed sync, with the
    LiveRamp tab as the sync read it, has an empty error list, whatever
    was typed into the working columns in between, as long as the stored
    source positions were left alone. *)
Theorem push_after_sync_has_no_errors config syncTime stamp logStamp runId
    w w1 out waData v v' c :
  syncFromLiveRamp config syncTime w = (w1, SyncComplete) →
  waSheet w1 = Some out →
  waSourceRow <$> waData = waSourceRow <$> out →
  source v = source w →
  waSheet v = Some waData →
  pushUpdatesToLiveRamp config stamp logStamp runId v = (v', PushComplete c) →
  errors c = [].
Proof.
  intros Hsync Hout Hpos Hsrc Hwa Hpush.
  destruct (push_complete_inv _ _ _ _ _ _ _ Hpush)
    as (grid & waData' & _ & _ & Hgrid & Hwa' & _ & Hc & _).
  rewrite Hwa in Hwa'. injection Hwa' as <-.
  rewrite Hsrc in Hgrid.
  pose proof (pushRows_errors config (stamp +:+ " ET") waData 0
                {| psGrid := grid; psWa := waData; psCount := noCounters |}) as He.
  simpl in He. rewrite <- Hc in He. rewrite He.
  assert (Hnone : filter (λ row, verdict config (length grid) row = Failed) waData = []).
  { destruct (filter _ waData) as [|z rest] eqn:Hf; [done|]. exfalso.
    assert (Hz : z ∈ filter (λ row, verdict config (length grid) row = Failed) waData)
      by (rewrite Hf; apply list_elem_of_here).
    apply list_elem_of_filter in Hz as [Hv Hz].
    assert (Hp : waSourceRow z ∈ waSourceRow <$> out).
    { rewrite <- Hpos. by apply list_elem_of_fmap_2. }
    apply list_elem_of_fmap in Hp as (o & Ho & Hin).
    destruct (sync_positions _ _ _ _ _ _ _ Hsync Hgrid Hout Hin) as [Hr _].
    apply verdict_Failed in Hv. unfold inGrid in Hv.
    apply andb_true_iff in Hv as [_ Hv]. rewrite Ho in Hv.
    destruct (Z.leb_spec 1 (waSourceRow o)); [|lia].
    destruct (Z.leb_spec (waSourceRow o) (Z.of_nat (length grid))); [done|lia]. }
  by rewrite Hnone.
Qed.

(** X26. After a sync, column K of a row whose composition of Template
    and FreeText is truthy holds a plain value: what a person then types
    into Template or FreeText does not change the message that the push
    engine reads from the row, which stays the one composed at sync time.
    Only a row written with a falsy composition holds the formula and
    follows later typing; for typed texts the formula gives their
    composition. *)
Theorem composed_message_is_fixed_at_sync config syncTime w w' out o :
  syncFromLiveRamp config syncTime w = (w', SyncComplete) →
  waSheet w' = Some out →
  o ∈ out →
  (truthy (autoComposed (waTemplate o) (waFreeText o)) = true →
   ∀ t f, composedValue (editTemplate t f o)
          = toStr (autoComposed (waTemplate o) (waFreeText o)))
  ∧ (truthy (autoComposed (waTemplate o) (waFreeText o)) = false →
     (∀ t f, composedCell (editTemplate t f o) = composeFormulaValue t f)
     ∧ (∀ t f, composedValue (editTemplate (Text t) (Text f) o) = composeTexts t f)).
Proof.
  intros Hsync Hout Ho.
  destruct (sync_output_row _ _ _ _ _ _ Hsync Hout Ho) as (waData & raw & _ & ->).
  set (r := reconcileRow _ raw).
  change (waTemplate (applyComposed r)) with (waTemplate r).
  change (waFreeText (applyComposed r)) with (waFreeText r).
  unfold composedValue, composedCell, editTemplate, applyComposed. simpl.
  destruct (truthy (autoComposed (waTemplate r) (waFreeText r))) eqn:Hauto.
  - split; [|done]. intros _ t f. unfold strOrEmpty. by rewrite Hauto.
  - split; [done|]. intros _. split; [done|]. intros t f.
    destruct (composeFormulaValue_text t f) as [-> Hc]. exact Hc.
Qed.

End SyncThenPush.

Lemma sync_positions_point_home_witness :
  ∃ i, lrCellIndex Tables.pushedGrid (waSourceRow Tables.resyncedRow) = Some i
       ∧ Tables.pushedGrid !! i = Some (waLr Tables.resyncedRow).
Proof.
  apply (sync_positions_point_home Scenario.config Tables.syncTime2 Scenario.afterPush
           Scenario.afterSync2 Tables.pushedGrid [Tables.resyncedRow] Tables.resyncedRow);
    try (vm_compute; reflexivity).
  constructor.
Defined.

Lemma push_after_sync_has_no_errors_witness :
  errors {| rowsConsidered := 1; rowsPushed := 1; rowsSkippedNoChange := 0;
            rowsSkippedNotReady := 0; errors := [] |} = [].
Proof.
  apply (push_after_sync_has_no_errors Scenario.config "02/02/2026 06:00:00"
           "02/02/2026 10:15 AM" "02/02/2026 10:15:00" "run00001"
           Scenario.world0 Scenario.afterSync1 [Samples.firstRow]
           [humanResponds "Investigating internally" Samples.firstRow]
           Scenario.afterEdit Scenario.afterPush);
    vm_compute; reflexivity.
Defined.

Lemma composed_message_is_fixed_at_sync_witness :
  composedValue (editTemplate (Text "Waiting on client") (Num 5) Tables.resyncedRow)
  = "Investigating internally".
Proof.
  refine (proj1 (composed_message_is_fixed_at_sync Scenario.config Tables.syncTime2
                   Scenario.afterPush Scenario.afterSync2 [Tables.resyncedRow]
                   Tables.resyncedRow _ _ _) _ (Text "Waiting on client") (Num 5));
    try (vm_compute; reflexivity).
  constructor.
Defined.
